(** * Venice image generation button: the override parser and the action

    A shallow embedding of [venice_image_gen_button.py] (class [Action]):
    the prompt override parser [parse_prompt_overrides], the markdown
    helper [_process_base64_image], the orchestrating coroutine
    [action], the constructor and the generator [keep_alive_generator],
    followed by the properties the specification states about them and
    by further properties read off the code.

    Conventions of the embedding.
    - A Python [str] is a [string] whose characters are the code points
      U+0000 to U+00FF; the character classes ([\w], [\s], [str.isspace],
      [str.lower], the digits [int] accepts) are CPython's for these
      code points.
    - Python integers are [Z]; [int] refuses a literal of more than
      4300 digits, the default of the limit CPython puts on the
      conversion.
    - Values of dynamic type (the chat body, the decoded JSON response)
      are [pyval]s; a dict keeps its insertion order, and a float is
      given by a rational, of which only being zero is ever looked at.
    - [action] runs in a state and exception monad: the state records the
      notifications handed to the event emitter and the HTTP requests
      posted, in order. The emitter and the logging calls do not raise.
    - The generator is a frame with a [next] function; [time.sleep] is
      counted in seconds, not waited for. *)

From Stdlib Require Import ZArith NArith QArith Qcanon Ascii String List Bool Lia.
From Stdlib Require Import DecimalString.
From stdpp Require Import base option numbers list gmap strings.

Local Open Scope string_scope.
Local Open Scope list_scope.

(** ** Characters *)

Module Char.

Definition code (c : ascii) : N := N_of_ascii c.

Definition in_range (lo hi : N) (c : ascii) : bool :=
  ((lo <=? code c) && (code c <=? hi))%N.

Definition is_code (n : N) (c : ascii) : bool := (code c =? n)%N.

(** [str.isspace], which is also the class [\s] of [re] on [str]. *)
Definition is_space (c : ascii) : bool :=
  in_range 9 13 c || in_range 28 32 c || is_code 133 c || is_code 160 c.

(** The class [\w] of [re] on [str]: alphanumeric or underscore. *)
Definition is_word (c : ascii) : bool :=
  in_range 48 57 c || in_range 65 90 c || is_code 95 c || in_range 97 122 c
  || is_code 170 c || is_code 178 c || is_code 179 c || is_code 181 c || is_code 185 c || is_code 186 c
  || in_range 188 190 c || in_range 192 214 c || in_range 216 246 c
  || in_range 248 255 c.

(** The class [[^\n]]. *)
Definition not_newline (c : ascii) : bool := negb (is_code 10 c).

Definition is_upper (c : ascii) : bool :=
  in_range 65 90 c || in_range 192 214 c || in_range 216 222 c.

(** One character of [str.lower]. *)
Definition lower (c : ascii) : ascii :=
  if is_upper c then ascii_of_N (code c + 32) else c.

Definition is_digit (c : ascii) : bool := in_range 48 57 c.

Definition digit_value (c : ascii) : Z := Z.of_N (code c) - 48.

(** The white space [int] strips from both ends of its argument:
    the separators U+001C to U+001F are white space for [str.strip]
    but not for [int]. *)
Definition is_int_space (c : ascii) : bool :=
  in_range 9 13 c || is_code 32 c || is_code 133 c || is_code 160 c.

End Char.

(** ** Strings: the [str] methods the module calls *)

Module Str.

Fixpoint map (f : ascii -> ascii) (s : string) : string :=
  match s with
  | EmptyString => EmptyString
  | String c s' => String (f c) (map f s')
  end.

(** [s.lower()] *)
Definition lower (s : string) : string := map Char.lower s.

Fixpoint lstrip_by (ws : ascii -> bool) (s : string) : string :=
  match s with
  | EmptyString => EmptyString
  | String c s' => if ws c then lstrip_by ws s' else s
  end.

Fixpoint rstrip_by (ws : ascii -> bool) (s : string) : string :=
  match s with
  | EmptyString => EmptyString
  | String c s' =>
      match rstrip_by ws s' with
      | EmptyString => if ws c then EmptyString else String c EmptyString
      | r => String c r
      end
  end.

(** [s.strip()] *)
Definition strip (s : string) : string :=
  rstrip_by Char.is_space (lstrip_by Char.is_space s).

(** [s.startswith(p)] *)
Fixpoint startswith (p s : string) : bool :=
  match p, s with
  | EmptyString, _ => true
  | String a p', String b s' => if Ascii.eqb a b then startswith p' s' else false
  | String _ _, EmptyString => false
  end.

(** [p in s] for two strings. *)
Fixpoint contains (p s : string) : bool :=
  startswith p s ||
  match s with
  | EmptyString => false
  | String _ s' => contains p s'
  end.

(** [new.join(s)] with [new] also put before and after: what
    [s.replace("", new)] returns. *)
Fixpoint intersperse (new s : string) : string :=
  match s with
  | EmptyString => new
  | String c s' => new +:+ String c (intersperse new s')
  end.

(** The scan of [s.replace(old, new)] for a non-empty [old]: left to
    right, an occurrence found at the current position is replaced and
    the scan resumes after it ([skip] counts the characters of the
    occurrence still to pass). *)
Fixpoint replace_scan (old new : string) (skip : nat) (s : string) : string :=
  match s with
  | EmptyString => EmptyString
  | String c s' =>
      match skip with
      | S n => replace_scan old new n s'
      | O =>
          if startswith old s
          then new +:+ replace_scan old new (String.length old - 1) s'
          else String c (replace_scan old new 0 s')
      end
  end.

(** [s.replace(old, new)]: every non-overlapping occurrence. *)
Definition replace (old new s : string) : string :=
  match old with
  | EmptyString => intersperse new s
  | _ => replace_scan old new 0 s
  end.

(** The digits of an integer literal as [int] reads it: decimal
    digits, single underscores allowed between two digits. [seen] tells
    whether the previous character was a digit. *)
Fixpoint digits (acc : Z) (seen : bool) (s : string) : option Z :=
  match s with
  | EmptyString => if seen then Some acc else None
  | String c s' =>
      if Char.is_digit c then digits (10 * acc + Char.digit_value c) true s'
      else if Char.is_code 95 c && seen then digits acc false s'
      else None
  end.

(** The number of digits [int] converts at most:
    [sys.get_int_max_str_digits()], at its default. *)
Definition max_str_digits : N := 4300.

(** The decimal digits of a text: leading zeros count, underscores do
    not. *)
Fixpoint count_digits (s : string) : N :=
  match s with
  | EmptyString => 0
  | String c s' =>
      ((if Char.is_digit c then 1 else 0) + count_digits s')%N
  end.

(** An integer literal without its sign; a literal of more digits than
    the limit is refused. *)
Definition literal (s : string) : option Z :=
  if (count_digits s <=? max_str_digits)%N then digits 0 false s else None.

(** [int(s)] in base ten; [None] stands for [ValueError]. *)
Definition int (s : string) : option Z :=
  match rstrip_by Char.is_int_space (lstrip_by Char.is_int_space s) with
  | String "+" r => literal r
  | String "-" r => Z.opp <$> literal r
  | r => literal r
  end.

End Str.

(** ** A backtracking matcher for the fragment of [re] the module uses

    A pattern is a sequence of items; an item is a literal character or
    the greedy repetition of a character class, at least [min] times,
    and may be a capturing group. *)

Inductive atom :=
  | Lit (c : ascii)
  | Rep (cls : ascii -> bool) (min : nat).

Inductive item :=
  | Plain (a : atom)
  | Group (a : atom).

Definition regex := list item.

Module Re.

Section Matcher.
Context {R : Type}.

(** Greedy repetition: take one more character of the class when
    possible, and fall back on stopping here when what follows does
    not match. [acc] is the text taken so far; [k] matches the rest
    of the pattern. *)
Fixpoint rep (cls : ascii -> bool) (k : string -> string -> option R)
    (min : nat) (acc : string) (s : string) : option R :=
  let stop := match min with O => k acc s | S _ => None end in
  match s with
  | EmptyString => stop
  | String c s' =>
      if cls c then
        match rep cls k (pred min) (acc +:+ String c EmptyString) s' with
        | Some r => Some r
        | None => stop
        end
      else stop
  end.

Definition atom_match (a : atom) (k : string -> string -> option R)
    (s : string) : option R :=
  match a with
  | Lit c =>
      match s with
      | String c' s' =>
          if Ascii.eqb c c' then k (String c EmptyString) s' else None
      | EmptyString => None
      end
  | Rep cls min => rep cls k min EmptyString s
  end.
End Matcher.

(** Match the pattern at the start of [s]: the captured groups and the
    text left after the match. *)
Fixpoint match_here (p : regex) (s : string) : option (list string * string) :=
  match p with
  | [] => Some ([], s)
  | Plain a :: p' => atom_match a (fun _ rest => match_here p' rest) s
  | Group a :: p' =>
      atom_match a
        (fun w rest =>
           match match_here p' rest with
           | Some (gs, rest') => Some (w :: gs, rest')
           | None => None
           end) s
  end.

(** The scan of [re.findall]: the leftmost match from each position,
    the next search starting where the match ended ([skip] counts the
    characters of the match still to pass). The patterns of this module
    never match the empty string. *)
Fixpoint scan (p : regex) (skip : nat) (s : string) : list (list string) :=
  match s with
  | EmptyString => []
  | String _ s' =>
      match skip with
      | S n => scan p n s'
      | O =>
          match match_here p s with
          | Some (gs, rest) =>
              gs :: scan p (String.length s - String.length rest - 1) s'
          | None => scan p 0 s'
          end
      end
  end.

(** [re.findall(p, s)] for a pattern with two groups: a list of pairs. *)
Definition findall (p : regex) (s : string) : list (string * string) :=
  (fun gs => (nth 0 gs EmptyString, nth 1 gs EmptyString)) <$> scan p 0 s.

End Re.

(** ** The override parser *)

(** The value of an override: [int] for the numeric keys, [str] for the
    others. *)
Inductive oval :=
  | VInt (z : Z)
  | VStr (s : string).

#[global] Instance oval_eq_dec : EqDecision oval.
Proof. solve_decision. Defined.

(** [r"(\w+):\s*([^\n]+)"] *)
Definition override_pattern : regex :=
  [ Group (Rep Char.is_word 1);
    Plain (Lit ":");
    Plain (Rep Char.is_space 0);
    Group (Rep Char.not_newline 1) ].

Definition recognized_keys : list string :=
  ["width"; "height"; "steps"; "seed"; "cfg_scale"; "style_preset";
   "negative_prompt"].

Definition numeric_keys : list string :=
  ["width"; "height"; "steps"; "seed"; "cfg_scale"].

(** The text the loop removes from the prompt: [f"{key}: {value}"]. *)
Definition override_text (key value : string) : string :=
  key +:+ ": " +:+ value.

(** One iteration of the loop over the matches. *)
Definition parse_step (st : string * gmap string oval) (m : string * string)
    : string * gmap string oval :=
  let '(cleaned_prompt, overrides) := st in
  let '(key, value) := m in
  let key := Str.lower key in
  if bool_decide (key ∈ recognized_keys) then
    let cleaned_prompt :=
      Str.strip (Str.replace (override_text key value) "" cleaned_prompt) in
    if bool_decide (key ∈ numeric_keys) then
      match Str.int value with
      | Some z => (cleaned_prompt, <[key := VInt z]> overrides)
      | None => (cleaned_prompt, overrides)
      end
    else (cleaned_prompt, <[key := VStr value]> overrides)
  else (cleaned_prompt, overrides).

Definition parse_prompt_overrides (prompt : string)
    : string * gmap string oval :=
  fold_left parse_step (Re.findall override_pattern prompt) (prompt, ∅).

(** ** Values of dynamic type *)

#[warning="-register-all"]
Inductive pyval :=
  | PNone
  | PBool (b : bool)
  | PInt (z : Z)
  | PFloat (q : Qc)
  | PStr (s : string)
  | PList (l : list pyval)
  | PDict (d : list (string * pyval)).

(** An exception: its class and [str(e)]. The texts of the built-in
    exceptions are CPython 3.11's. *)
Record exn := Exn { exn_class : string; exn_str : string }.

Definition result (A : Type) : Type := exn + A.

Module Py.

Definition type_name (v : pyval) : string :=
  match v with
  | PNone => "NoneType"
  | PBool _ => "bool"
  | PInt _ => "int"
  | PFloat _ => "float"
  | PStr _ => "str"
  | PList _ => "list"
  | PDict _ => "dict"
  end.

(** [bool(v)] *)
Definition truthy (v : pyval) : bool :=
  match v with
  | PNone => false
  | PBool b => b
  | PInt z => negb (z =? 0)%Z
  | PFloat q => negb (bool_decide (q = 0%Qc))
  | PStr s => negb (String.eqb s "")
  | PList l => match l with [] => false | _ => true end
  | PDict d => match d with [] => false | _ => true end
  end.

Fixpoint lookup (key : string) (d : list (string * pyval)) : option pyval :=
  match d with
  | [] => None
  | (k, v) :: d' => if String.eqb k key then Some v else lookup key d'
  end.

(** [d.get(key, default)] on a dict. *)
Definition dict_get (d : list (string * pyval)) (key : string)
    (default : pyval) : pyval :=
  match lookup key d with
  | Some v => v
  | None => default
  end.

(** The [AttributeError] of a method the value does not have. *)
Definition no_attribute (v : pyval) (name : string) : exn :=
  Exn "AttributeError"
    ("'" +:+ type_name v +:+ "' object has no attribute '" +:+ name +:+ "'").

(** [v.get(key, default)] on any value. *)
Definition get (v : pyval) (key : string) (default : pyval) : result pyval :=
  match v with
  | PDict d => inr (dict_get d key default)
  | _ => inl (no_attribute v "get")
  end.

Fixpoint last_char (s : string) : option string :=
  match s with
  | EmptyString => None
  | String c EmptyString => Some (String c EmptyString)
  | String _ s' => last_char s'
  end.

(** [v[-1]] *)
Definition index_last (v : pyval) : result pyval :=
  match v with
  | PList l =>
      match last l with
      | Some x => inr x
      | None => inl (Exn "IndexError" "list index out of range")
      end
  | PStr s =>
      match last_char s with
      | Some c => inr (PStr c)
      | None => inl (Exn "IndexError" "string index out of range")
      end
  | PDict _ => inl (Exn "KeyError" "-1")
  | _ => inl (Exn "TypeError"
                ("'" +:+ type_name v +:+ "' object is not subscriptable"))
  end.

Definition is_str (s : string) (v : pyval) : bool :=
  match v with
  | PStr s' => String.eqb s s'
  | _ => false
  end.

(** [key in v] for a string [key]. *)
Definition contains (key : string) (v : pyval) : result bool :=
  match v with
  | PDict d => inr (bool_decide (is_Some (lookup key d)))
  | PList l => inr (existsb (is_str key) l)
  | PStr s => inr (Str.contains key s)
  | _ => inl (Exn "TypeError"
                ("argument of type '" +:+ type_name v +:+ "' is not iterable"))
  end.

(** [v[key]] for a string [key]. *)
Definition getitem (v : pyval) (key : string) : result pyval :=
  match v with
  | PDict d =>
      match lookup key d with
      | Some x => inr x
      | None => inl (Exn "KeyError" ("'" +:+ key +:+ "'"))
      end
  | PList _ =>
      inl (Exn "TypeError" "list indices must be integers or slices, not str")
  | PStr _ => inl (Exn "TypeError" "string indices must be integers, not 'str'")
  | _ => inl (Exn "TypeError"
                ("'" +:+ type_name v +:+ "' object is not subscriptable"))
  end.

Fixpoint chars (s : string) : list pyval :=
  match s with
  | EmptyString => []
  | String c s' => PStr (String c EmptyString) :: chars s'
  end.

(** The elements a [for] loop over [v] visits. *)
Definition iter (v : pyval) : result (list pyval) :=
  match v with
  | PList l => inr l
  | PStr s => inr (chars s)
  | PDict d => inr ((fun kv => PStr kv.1) <$> d)
  | _ => inl (Exn "TypeError"
                ("'" +:+ type_name v +:+ "' object is not iterable"))
  end.

(** What [re.findall] demands of its second argument. *)
Definition expect_str (v : pyval) : result string :=
  match v with
  | PStr s => inr s
  | _ => inl (Exn "TypeError"
                ("expected string or bytes-like object, got '"
                 +:+ type_name v +:+ "'"))
  end.

End Py.

(** ** The markdown helper *)

(** The [try] body of [_process_base64_image]: a log call and two
    f-strings over a [str], then [return]. *)
Definition process_base64_body (image_data : string) : result string :=
  let data_url := "data:image/png;base64," +:+ image_data in
  inr ("![image](" +:+ data_url +:+ ")").

Definition _process_base64_image (image_data : string) : string :=
  match process_base64_body image_data with
  | inr markdown => markdown
  | inl e => "Error processing image: " +:+ exn_str e
  end.

(** ** Configuration, requests and notifications *)

Record Valves := {
  VENICE_API_BASE_URL : string;
  VENICE_API_KEY : string;
  IMAGE_WIDTH : Z;
  IMAGE_HEIGHT : Z;
  HIDE_WATERMARK : bool;
  RETURN_BINARY : bool;
  SEED : option Z;
  MODEL_ID : string;
  CFG_SCALE : Z;
  STEPS : Z;
  STYLE_PRESET : string;
  NEGATIVE_PROMPT : string;
  TIMEOUT : Z
}.

(** The defaults of the class [Valves]. *)
Definition default_valves : Valves := {|
  VENICE_API_BASE_URL := "https://api.venice.ai/api/v1";
  VENICE_API_KEY := "";
  IMAGE_WIDTH := 720;
  IMAGE_HEIGHT := 1080;
  HIDE_WATERMARK := true;
  RETURN_BINARY := false;
  SEED := Some 123%Z;
  MODEL_ID := "fluently-xl";
  CFG_SCALE := 7;
  STEPS := 80;
  STYLE_PRESET := "Photographic";
  NEGATIVE_PROMPT := "";
  TIMEOUT := 10
|}.

(** The JSON body of the request, one field per key of the dict. *)
Record payload := {
  pl_model : string;
  pl_prompt : string;
  pl_width : oval;
  pl_height : oval;
  pl_steps : oval;
  pl_hide_watermark : bool;
  pl_return_binary : bool;
  pl_cfg_scale : oval;
  pl_seed : oval;
  pl_negative_prompt : oval;
  pl_style_preset : string
}.

Record request := {
  rq_url : string;
  rq_headers : list (string * string);
  rq_json : payload;
  rq_timeout : Z
}.

(** What the module reads of a [requests.Response]. [resp_json] is the
    outcome of [response.json()]. *)
Record response := {
  resp_status_code : Z;
  resp_reason : string;
  resp_url : string;
  resp_json : result pyval
}.

(** What lies outside the module during one call: the number
    [random.randint(0, 999999)] returns, and the outcome of
    [requests.post], an exception (time-out, connection failure) or a
    response. *)
Record world := {
  randint_0_999999 : Z;
  http_post : request -> result response
}.

(** A notification, as passed to the event emitter:
    [{"type": "status", "data": {"description": _, "done": _}}] or
    [{"type": "message", "data": {"content": _, "role": _}}]. *)
Inductive event :=
  | Status (description : string) (done : bool)
  | Message (content : string) (role : string).

#[global] Instance event_eq_dec : EqDecision event.
Proof. solve_decision. Defined.

(** ** The monad of [action] *)

Record state := {
  emitted : list event;
  posted : list request
}.

Definition initial : state := {| emitted := []; posted := [] |}.

Definition M (A : Type) : Type := state -> result A * state.

Definition ret {A} (a : A) : M A := fun s => (inr a, s).

Definition bind {A B} (m : M A) (f : A -> M B) : M B :=
  fun s =>
    match m s with
    | (inr a, s') => f a s'
    | (inl e, s') => (inl e, s')
    end.

Definition raise {A} (e : exn) : M A := fun s => (inl e, s).

(** A computation without effect: a value or an exception. *)
Definition lift {A} (r : result A) : M A := fun s => (r, s).

(** [try: m  except Exception as e: h e] *)
Definition try_except {A} (m : M A) (h : exn -> M A) : M A :=
  fun s =>
    match m s with
    | (inl e, s') => h e s'
    | r => r
    end.

(** [await __event_emitter__(ev)] *)
Definition emit (ev : event) : M unit :=
  fun s => (inr tt, {| emitted := emitted s ++ [ev]; posted := posted s |}).

(** [requests.post(url, headers=..., json=..., timeout=...)] *)
Definition post (w : world) (rq : request) : M response :=
  fun s =>
    (http_post w rq, {| emitted := emitted s; posted := posted s ++ [rq] |}).

Notation "x <- m ;; k" := (bind m (fun x => k))
  (at level 100, m at next level, right associativity).
Notation "m ;;; k" := (bind m (fun _ => k))
  (at level 100, right associativity).

(** [for x in l: body x] *)
Fixpoint for_each {A} (l : list A) (body : A -> M unit) : M unit :=
  match l with
  | [] => ret tt
  | x :: l' => body x ;;; for_each l' body
  end.

(** ** The action *)

Definition Z_to_string (z : Z) : string :=
  DecimalString.NilZero.string_of_int (Z.to_int z).

(** [response.raise_for_status()] *)
Definition raise_for_status (r : response) : result unit :=
  let code := resp_status_code r in
  let text kind :=
    Z_to_string code +:+ " " +:+ kind +:+ " Error: " +:+ resp_reason r
    +:+ " for url: " +:+ resp_url r in
  if ((400 <=? code) && (code <? 500))%Z then
    inl (Exn "HTTPError" (text "Client"))
  else if ((500 <=? code) && (code <? 600))%Z then
    inl (Exn "HTTPError" (text "Server"))
  else inr tt.

(** [body.get("messages", [{}])[-1].get("content", "")] *)
Definition last_message_content (body : list (string * pyval)) : result pyval :=
  match Py.index_last (Py.dict_get body "messages" (PList [PDict []])) with
  | inr message => Py.get message "content" (PStr "")
  | inl e => inl e
  end.

(** [overrides.get(key, default)] *)
Definition overrides_get (overrides : gmap string oval) (key : string)
    (default : oval) : oval :=
  match overrides !! key with
  | Some v => v
  | None => default
  end.

(** The dict [payload] of [action]. *)
Definition build_payload (valves : Valves) (w : world) (prompt : string)
    (overrides : gmap string oval) : payload := {|
  pl_model := MODEL_ID valves;
  pl_prompt := prompt;
  pl_width := overrides_get overrides "width" (VInt (IMAGE_WIDTH valves));
  pl_height := overrides_get overrides "height" (VInt (IMAGE_HEIGHT valves));
  pl_steps := overrides_get overrides "steps" (VInt (STEPS valves));
  pl_hide_watermark := HIDE_WATERMARK valves;
  pl_return_binary := RETURN_BINARY valves;
  pl_cfg_scale := overrides_get overrides "cfg_scale" (VInt (CFG_SCALE valves));
  pl_seed := overrides_get overrides "seed" (VInt (randint_0_999999 w));
  pl_negative_prompt :=
    overrides_get overrides "negative_prompt" (VStr (NEGATIVE_PROMPT valves));
  pl_style_preset := STYLE_PRESET valves
|}.

Definition build_request (valves : Valves) (w : world) (prompt : string)
    (overrides : gmap string oval) : request := {|
  rq_url := VENICE_API_BASE_URL valves +:+ "/image/generate";
  rq_headers :=
    [("Authorization", "Bearer " +:+ VENICE_API_KEY valves);
     ("Content-Type", "application/json")];
  rq_json := build_payload valves w prompt overrides;
  rq_timeout := TIMEOUT valves
|}.

(** The markdown of one image: the entry itself when it starts with
    [http], a data URL otherwise. *)
Definition image_markdown (image_data : string) : string :=
  if Str.startswith "http" image_data
  then "![image](" +:+ image_data +:+ ")"
  else _process_base64_image image_data.

(** The body of the loop over [data["images"]]; an entry that is not a
    [str] has no method [startswith]. *)
Definition emit_image (image_data : pyval) : M unit :=
  match image_data with
  | PStr s => emit (Message (image_markdown s) "assistant")
  | _ => raise (Py.no_attribute image_data "startswith")
  end.

(** [if "images" in data and data["images"]: for image_data in ...] *)
Definition emit_images (data : pyval) : M unit :=
  has_images <- lift (Py.contains "images" data) ;;
  if has_images then
    images <- lift (Py.getitem data "images") ;;
    if Py.truthy images then
      entries <- lift (Py.iter images) ;;
      for_each entries emit_image
    else ret tt
  else ret tt.

(** The [try] block of [action]. *)
Definition action_body (valves : Valves) (body : list (string * pyval))
    (w : world) : M unit :=
  prompt <- lift (last_message_content body) ;;
  prompt <- lift (Py.expect_str prompt) ;;
  let '(prompt, overrides) := parse_prompt_overrides prompt in
  r <- post w (build_request valves w prompt overrides) ;;
  lift (raise_for_status r) ;;;
  data <- lift (resp_json r) ;;
  emit_images data ;;;
  emit (Status "Image generated!" true).

(** The event emitter the host passes, when it passes one. *)
Inductive emitter := HostEmitter.

Definition action (valves : Valves) (body : list (string * pyval))
    (__event_emitter__ : option emitter) (w : world) : M unit :=
  if negb (bool_decide (is_Some __event_emitter__))
     || String.eqb (VENICE_API_KEY valves) ""
  then ret tt
  else
    emit (Status "Generating image..." false) ;;;
    try_except (action_body valves body w)
      (fun e => emit (Status ("Error: " +:+ exn_str e) true)).

(** ** The instance and its keep-alive generator *)

(** The attributes [__init__] sets. *)
Record Action := {
  self_valves : Valves;
  self_keep_alive_active : bool
}.

Definition __init__ : Action :=
  {| self_valves := default_valves; self_keep_alive_active := false |}.

(** Where the generator [keep_alive_generator] returns stands: not
    started, suspended at its [yield], or finished. *)
Inductive generator_frame :=
  | NotStarted
  | AtYield
  | Finished.

(** One [next] on the generator. [active] is [self.keep_alive_active]
    when the [while] condition is tested. The result is the value
    yielded ([None] stands for [StopIteration]), the frame after the call
    and the seconds slept during it: resumed after its [yield], the
    generator runs [time.sleep(1)] before it tests the condition. *)
Definition keep_alive_next (active : bool) (g : generator_frame)
    : option string * generator_frame * nat :=
  match g with
  | NotStarted =>
      if active then (Some " ", AtYield, 0) else (None, Finished, 0)
  | AtYield =>
      if active then (Some " ", AtYield, 1) else (None, Finished, 1)
  | Finished => (None, Finished, 0)
  end.

(** Successive calls of [next]; [flags] gives the attribute at each
    call. The values yielded and the seconds slept in all. *)
Fixpoint keep_alive_run (flags : list bool) (g : generator_frame)
    : list (option string) * nat :=
  match flags with
  | [] => ([], 0)
  | active :: flags' =>
      let '(out, g', t) := keep_alive_next active g in
      let '(outs, ts) := keep_alive_run flags' g' in
      (out :: outs, t + ts)
  end.

(** * The vocabulary of the properties *)

Abbreviation matches prompt := (Re.findall override_pattern prompt).

(** ** Removing a text, and being trimmed *)

(** [a] is the text before the first occurrence of [old] in
    [a +:+ rest]: no non-empty suffix of [a], followed by [rest], starts
    with [old]. *)
Definition first_at (old a rest : string) : Prop :=
  forall a1 c a2,
    a = a1 +:+ String c a2 -> Str.startswith old (String c a2 +:+ rest) = false.







(** ** The shape of a match *)

(** Every character of [s] is in the class. *)
Fixpoint str_all (cls : ascii -> bool) (s : string) : bool :=
  match s with
  | EmptyString => true
  | String c s' => cls c && str_all cls s'
  end.

(** A match of the override pattern, read off the text: a non-empty
    word, a colon, white space, and a non-empty value without line
    break. *)
Definition override_shape (key value : string) : Prop :=
  key <> EmptyString /\ str_all Char.is_word key = true
  /\ value <> EmptyString /\ str_all Char.not_newline value = true.

(** ** The entries of the mapping *)

(** How the loop stores a match of [key]: converted for a numeric key,
    dropped when the conversion fails. *)
Definition stored (key value : string) : option oval :=
  if bool_decide (key ∈ numeric_keys) then VInt <$> Str.int value
  else Some (VStr value).

(** The entries the matches of [key] put in the mapping, oldest first. *)
Definition accepted (key : string) (ms : list (string * string)) : list oval :=
  omap (fun m => if bool_decide (Str.lower m.1 = key) then stored key m.2 else None) ms.

(** The values of the matches of [key], oldest first. *)
Definition values_of (key : string) (ms : list (string * string)) : list string :=
  omap (fun m => if bool_decide (Str.lower m.1 = key) then Some m.2 else None) ms.

(** The mapping holds [value] under [key], as text or converted to an
    integer. *)
Definition holds (overrides : gmap string oval) (key value : string) : Prop :=
  exists v, overrides !! key = Some v
    /\ (v = VStr value \/ exists z, Str.int value = Some z /\ v = VInt z).

(** The rule as the specification words it: a key matched more than
    once is mapped to the value of its last occurrence. *)
Definition last_occurrence_wins (prompt key : string) : Prop :=
  forall value,
    2 <= length (values_of key (matches prompt)) ->
    last (values_of key (matches prompt)) = Some value ->
    holds (parse_prompt_overrides prompt).2 key value.

(** ** The notifications of a run *)

(** The state in which the [try] block starts. *)
Definition generating : state :=
  {| emitted := [Status "Generating image..." false]; posted := [] |}.


Definition is_message (ev : event) : bool :=
  match ev with
  | Message _ _ => true
  | Status _ _ => false
  end.

(** The message of one image. *)
Definition image_message (image_data : string) : event :=
  Message (image_markdown image_data) "assistant".

(** A computation that adds only messages to the notifications and
    posts nothing. *)
Definition only_messages (m : M unit) : Prop :=
  forall s res s', m s = (res, s') ->
    posted s' = posted s
    /\ exists msgs, emitted s' = emitted s ++ msgs
                    /\ Forall (fun ev => is_message ev = true) msgs.

(** Steps 2 to 6 and the decoding of the response, without the effects:
    the value [data] the loop over the images starts from, or the
    exception raised before it. *)
Definition response_data (valves : Valves) (body : list (string * pyval))
    (w : world) : result pyval :=
  match last_message_content body with
  | inl e => inl e
  | inr prompt =>
      match Py.expect_str prompt with
      | inl e => inl e
      | inr prompt =>
          let '(prompt, overrides) := parse_prompt_overrides prompt in
          match http_post w (build_request valves w prompt overrides) with
          | inl e => inl e
          | inr r =>
              match raise_for_status r with
              | inl e => inl e
              | inr _ => resp_json r
              end
          end
      end
  end.

(** The [images] list of the decoded response, a list of strings; an
    absent key counts as the empty list. *)
Definition images_of (d : list (string * pyval)) (images : list string) : Prop :=
  Py.lookup "images" d = Some (PList (PStr <$> images))
  \/ (Py.lookup "images" d = None /\ images = []).

(** An HTTP(S) URL starts with one of the two schemes. *)
Definition is_http_url (s : string) : bool :=
  Str.startswith "http://" s || Str.startswith "https://" s.

(** The markdown of an entry as the specification words it: the entry
    itself for an HTTP(S) URL, a data URL otherwise. *)
Definition url_or_base64_markdown (entry : string) : string :=
  if is_http_url entry then "![image](" +:+ entry +:+ ")"
  else "![image](data:image/png;base64," +:+ entry +:+ ")".

(** ** Sample inputs *)

Definition nl : string := String (ascii_of_N 10) EmptyString.

(** The default configuration with an API key set. *)
Definition keyed_valves : Valves := {|
  VENICE_API_BASE_URL := VENICE_API_BASE_URL default_valves;
  VENICE_API_KEY := "secret";
  IMAGE_WIDTH := IMAGE_WIDTH default_valves;
  IMAGE_HEIGHT := IMAGE_HEIGHT default_valves;
  HIDE_WATERMARK := HIDE_WATERMARK default_valves;
  RETURN_BINARY := RETURN_BINARY default_valves;
  SEED := SEED default_valves;
  MODEL_ID := MODEL_ID default_valves;
  CFG_SCALE := CFG_SCALE default_valves;
  STEPS := STEPS default_valves;
  STYLE_PRESET := STYLE_PRESET default_valves;
  NEGATIVE_PROMPT := NEGATIVE_PROMPT default_valves;
  TIMEOUT := TIMEOUT default_valves
|}.

(** A chat body with one user message. *)
Definition chat (text : string) : list (string * pyval) :=
  [("messages", PList [PDict [("role", PStr "user"); ("content", PStr text)]])].

(** A world in which the request has the outcome [outcome]. *)
Definition world_with (rand : Z) (outcome : result response) : world :=
  {| randint_0_999999 := rand; http_post := fun _ => outcome |}.

Definition ok_response (data : pyval) : response :=
  {| resp_status_code := 200;
     resp_reason := "OK";
     resp_url := "https://api.venice.ai/api/v1/image/generate";
     resp_json := inr data |}.

Definition read_timeout : exn :=
  Exn "ReadTimeout" "Read timed out. (read timeout=10)".

(** ** More vocabulary *)

(** No colon in the text. *)
Definition colon_free (s : string) : bool :=
  str_all (fun c => negb (Ascii.eqb c ":")) s.

(** The characters of a string, as a list. *)
Fixpoint chars_of (s : string) : list ascii :=
  match s with
  | EmptyString => []
  | String c s' => c :: chars_of s'
  end.

(** A value as the pattern captures it when one space follows the
    colon: not empty, on one line, not starting with white space. *)
Definition plain_value (value : string) : Prop :=
  str_all Char.not_newline value = true
  /\ exists c r, value = String c r /\ Char.is_space c = false.

(** The status an exception ends the run with. *)
Definition error_status (e : exn) : event :=
  Status ("Error: " +:+ exn_str e) true.

(** The status a run without exception ends with. *)
Definition done_status : event := Status "Image generated!" true.

(** The field holds an integer. *)
Definition is_int (v : oval) : Prop := exists z, v = VInt z.

(** A chat body whose last message has the content [text]. *)
Definition ends_with_message (body : list (string * pyval)) (text : string) : Prop :=
  last_message_content body = inr (PStr text).

(** The first [n] characters of a text. *)
Fixpoint str_take (n : nat) (s : string) : string :=
  match n, s with
  | S n', String c s' => String c (str_take n' s')
  | _, _ => EmptyString
  end.

(** The scan of [re.findall] again, keeping with the groups of each
    match the text the match spans. *)
Fixpoint scan_spans (p : regex) (skip : nat) (s : string)
    : list (string * list string) :=
  match s with
  | EmptyString => []
  | String _ s' =>
      match skip with
      | S n => scan_spans p n s'
      | O =>
          match Re.match_here p s with
          | Some (gs, rest) =>
              (str_take (String.length s - String.length rest) s, gs)
              :: scan_spans p (String.length s - String.length rest - 1) s'
          | None => scan_spans p 0 s'
          end
      end
  end.

(** The exact text of each match of the override pattern, in the order
    of [matches]. *)
Definition matched_texts (prompt : string) : list string :=
  fst <$> scan_spans override_pattern 0 prompt.




(** [n] copies of a text, one after the other: [s * n]. *)
Fixpoint str_repeat (n : nat) (s : string) : string :=
  match n with
  | O => EmptyString
  | S n' => s +:+ str_repeat n' s
  end.

(** * Facts about the string operations *)

Module StrFacts.

Lemma app_cons (c : ascii) (a b : string) :
  String c a +:+ b = String c (a +:+ b).
Proof. reflexivity. Qed.

Lemma app_nil_l (b : string) : "" +:+ b = b.
Proof. reflexivity. Qed.

Lemma app_assoc (a b c : string) : (a +:+ b) +:+ c = a +:+ (b +:+ c).
Proof.
  induction a as [|x a IH]; [reflexivity|].
  now rewrite !app_cons, IH.
Qed.

Lemma app_nil_r (a : string) : a +:+ "" = a.
Proof.
  induction a as [|x a IH]; [reflexivity|].
  now rewrite app_cons, IH.
Qed.

Lemma length_app (a b : string) :
  String.length (a +:+ b) = String.length a + String.length b.
Proof.
  induction a as [|x a IH]; [reflexivity|].
  rewrite app_cons. cbn [String.length]. now rewrite IH.
Qed.

(** ** [startswith] and [contains] *)

Lemma startswith_app (p s : string) : Str.startswith p (p +:+ s) = true.
Proof.
  induction p as [|x p IH]; [reflexivity|].
  rewrite app_cons. cbn [Str.startswith]. now rewrite Ascii.eqb_refl.
Qed.

Lemma startswith_split (p s : string) :
  Str.startswith p s = true -> exists b, s = p +:+ b.
Proof.
  revert s. induction p as [|x p IH]; intros s H.
  - now exists s.
  - destruct s as [|y s]; cbn [Str.startswith] in H; [discriminate|].
    destruct (Ascii.eqb_spec x y) as [->|]; [|discriminate].
    destruct (IH s H) as [b ->]. now exists b.
Qed.




Lemma first_at_inv (old : string) (c : ascii) (a rest : string) :
  first_at old (String c a) rest ->
  Str.startswith old (String c a +:+ rest) = false /\ first_at old a rest.
Proof.
  intros H. split.
  - now apply (H "" c a).
  - intros a1 c' a2 ->. now apply (H (String c a1) c' a2).
Qed.


(** ** [replace] *)

Lemma replace_scan_skip (old new x s : string) :
  Str.replace_scan old new (String.length x) (x +:+ s)
  = Str.replace_scan old new 0 s.
Proof.
  induction x as [|c x IH]; [reflexivity|].
  rewrite app_cons. cbn [String.length Str.replace_scan]. exact IH.
Qed.

Lemma replace_scan_here (old new b : string) :
  old <> "" ->
  Str.replace_scan old new 0 (old +:+ b) = new +:+ Str.replace_scan old new 0 b.
Proof.
  destruct old as [|o old]; [congruence | intros _].
  rewrite app_cons. cbn [Str.replace_scan].
  rewrite <- app_cons, startswith_app. cbn [String.length].
  replace (S (String.length old) - 1) with (String.length old) by lia.
  now rewrite replace_scan_skip.
Qed.

Lemma replace_scan_first (old new a b : string) :
  old <> "" -> first_at old a (old +:+ b) ->
  Str.replace_scan old new 0 (a +:+ old +:+ b)
  = a +:+ new +:+ Str.replace_scan old new 0 b.
Proof.
  intros Hold. induction a as [|c a IH]; intros Hfirst.
  - rewrite !app_nil_l. now apply replace_scan_here.
  - apply first_at_inv in Hfirst as [Hc Ha].
    rewrite app_cons in Hc |- *.
    cbn [Str.replace_scan]. rewrite Hc, app_cons. now rewrite IH.
Qed.



(** ** Occurrences *)







(** ** [strip] *)





End StrFacts.

(** * Facts about the matcher *)

Section MatcherFacts.

Lemma rep_sound {R} (cls : ascii -> bool) (k : string -> string -> option R)
    (s : string) :
  forall min acc r,
    Re.rep cls k min acc s = Some r ->
    exists w rest,
      s = w +:+ rest /\ str_all cls w = true /\ min <= String.length w
      /\ k (acc +:+ w) rest = Some r.
Proof.
  induction s as [|c s IH]; intros min acc r H; cbn [Re.rep] in H.
  - destruct min; [|discriminate H].
    exists "", "". rewrite (StrFacts.app_nil_r acc). repeat split; [lia | exact H].
  - assert (Hstop : match min with 0 => k acc (String c s) | S _ => None end = Some r ->
                    exists w rest, String c s = w +:+ rest /\ str_all cls w = true
                      /\ min <= String.length w /\ k (acc +:+ w) rest = Some r).
    { intros Hs. destruct min; [|discriminate Hs].
      exists "", (String c s). rewrite (StrFacts.app_nil_r acc).
      repeat split; [lia | exact Hs]. }
    destruct (cls c) eqn:Hc; [|now apply Hstop].
    destruct (Re.rep cls k (pred min) (acc +:+ String c "") s) as [r'|] eqn:Hrec;
      [|now apply Hstop].
    injection H as ->.
    destruct (IH _ _ _ Hrec) as (w & rest & -> & Hw & Hlen & Hk).
    exists (String c w), rest. rewrite StrFacts.app_cons. cbn [str_all String.length].
    rewrite Hc, Hw. repeat split; [lia|].
    now rewrite StrFacts.app_assoc in Hk.
Qed.

Lemma override_match_sound (s : string) (gs : list string) (rest : string) :
  Re.match_here override_pattern s = Some (gs, rest) ->
  exists key ws value,
    gs = [key; value]
    /\ s = key +:+ ":" +:+ ws +:+ value +:+ rest
    /\ str_all Char.is_space ws = true
    /\ override_shape key value.
Proof.
  unfold override_pattern. cbn [Re.match_here Re.atom_match]. intros H.
  apply rep_sound in H as (key & r1 & -> & Hkey & Hklen & H).
  destruct r1 as [|c r1]; [discriminate H|].
  destruct (Ascii.eqb_spec ":" c) as [<-|]; [|discriminate H].
  destruct (Re.rep Char.is_space _ 0 "" r1) as [[gs' rest']|] eqn:Hsp;
    [|discriminate H].
  injection H as <- <-.
  apply rep_sound in Hsp as (ws & r2 & -> & Hws & _ & H).
  destruct (Re.rep Char.not_newline _ 1 "" r2) as [[gs'' rest'']|] eqn:Hval;
    [|discriminate H].
  injection H as <- <-.
  apply rep_sound in Hval as (value & r3 & -> & Hvalue & Hvlen & H).
  injection H as <- <-.
  exists key, ws, value. rewrite !StrFacts.app_nil_l.
  split; [reflexivity|]. split.
  - reflexivity.
  - split; [exact Hws|]. repeat split; try assumption.
    + intros ->. cbn in Hklen. lia.
    + intros ->. cbn in Hvlen. lia.
Qed.

Lemma scan_sound (s : string) :
  forall skip gs,
    gs ∈ Re.scan override_pattern skip s ->
    exists t rest, Re.match_here override_pattern t = Some (gs, rest).
Proof.
  induction s as [|c s IH]; intros skip gs H; cbn [Re.scan] in H.
  - now apply elem_of_nil in H.
  - destruct skip as [|n]; [|exact (IH _ _ H)].
    destruct (Re.match_here override_pattern (String c s)) as [[gs' rest]|] eqn:Hm;
      [|exact (IH _ _ H)].
    apply elem_of_cons in H as [->|H]; [|exact (IH _ _ H)].
    exists (String c s), rest. exact Hm.
Qed.

(** What [findall] returns for the override pattern: keys that are
    non-empty words, values that are non-empty and hold no line break. *)
Lemma matches_shape (prompt key value : string) :
  (key, value) ∈ matches prompt -> override_shape key value.
Proof.
  unfold Re.findall. rewrite list_elem_of_fmap. intros (gs & E & Hin).
  destruct (scan_sound _ _ _ Hin) as (t & rest & Hm).
  destruct (override_match_sound _ _ _ Hm) as (k & ws & v & -> & _ & _ & Hshape).
  cbn [nth] in E. now injection E as -> ->.
Qed.

End MatcherFacts.

(** ** The text a match spans *)

Section Spans.

Lemma str_take_app (a b : string) : str_take (String.length a) (a +:+ b) = a.
Proof.
  induction a as [|c a IH]; [now destruct b|].
  rewrite StrFacts.app_cons. cbn [String.length str_take]. now rewrite IH.
Qed.

Lemma scan_spans_groups (p : regex) (s : string) :
  forall skip, snd <$> scan_spans p skip s = Re.scan p skip s.
Proof.
  induction s as [|c s IH]; intros skip; [reflexivity|].
  cbn [scan_spans Re.scan]. destruct skip as [|n]; [|apply IH].
  destruct (Re.match_here p (String c s)) as [[gs rest]|]; [|apply IH].
  cbn [fmap list_fmap snd]. now rewrite <- IH.
Qed.

(** The texts and the pairs of [findall] go together, match by match. *)
Lemma matched_texts_aligned (prompt : string) (i : nat) (text key value : string) :
  matched_texts prompt !! i = Some text ->
  matches prompt !! i = Some (key, value) ->
  exists gs,
    scan_spans override_pattern 0 prompt !! i = Some (text, gs)
    /\ nth 0 gs "" = key /\ nth 1 gs "" = value.
Proof.
  unfold matched_texts, Re.findall. rewrite <- scan_spans_groups.
  rewrite !list_lookup_fmap.
  destruct (scan_spans override_pattern 0 prompt !! i) as [[t gs]|];
    [|discriminate].
  cbn. intros [= <-] [= <- <-]. now exists gs.
Qed.

Lemma scan_spans_sound (s : string) :
  forall skip text gs,
    (text, gs) ∈ scan_spans override_pattern skip s ->
    exists key ws value,
      gs = [key; value] /\ text = key +:+ ":" +:+ ws +:+ value
      /\ str_all Char.is_space ws = true.
Proof.
  induction s as [|c s IH]; intros skip text gs H; cbn [scan_spans] in H.
  - now apply elem_of_nil in H.
  - destruct skip as [|n]; [|exact (IH _ _ _ H)].
    destruct (Re.match_here override_pattern (String c s)) as [[gs' rest]|] eqn:Hm;
      [|exact (IH _ _ _ H)].
    apply elem_of_cons in H as [[= -> ->]|H]; [|exact (IH _ _ _ H)].
    destruct (override_match_sound _ _ _ Hm) as (key & ws & value & -> & E & Hws & _).
    exists key, ws, value. split; [reflexivity|]. split; [|exact Hws].
    assert (E' : String c s = (key +:+ ":" +:+ ws +:+ value) +:+ rest)
      by (now rewrite E, !StrFacts.app_assoc).
    change (S (String.length s)) with (String.length (String c s)).
    rewrite E', StrFacts.length_app.
    replace (String.length (key +:+ ":" +:+ ws +:+ value) + String.length rest
             - String.length rest)
      with (String.length (key +:+ ":" +:+ ws +:+ value)) by lia.
    apply str_take_app.
Qed.

(** The text of a match is its key, a colon, white space and its
    value. *)
Lemma matched_text_shape (prompt : string) (i : nat) (text key value : string) :
  matched_texts prompt !! i = Some text ->
  matches prompt !! i = Some (key, value) ->
  exists ws, text = key +:+ ":" +:+ ws +:+ value
             /\ str_all Char.is_space ws = true.
Proof.
  intros Ht Hm.
  destruct (matched_texts_aligned _ _ _ _ _ Ht Hm) as (gs & Hsp & Hk & Hv).
  apply list_elem_of_lookup_2 in Hsp.
  destruct (scan_spans_sound _ _ _ _ Hsp) as (k & ws & v & -> & -> & Hws).
  cbn [nth] in Hk, Hv. subst. now exists ws.
Qed.

End Spans.

(** * The embedding on sample inputs *)

(** [re.findall], [str.replace] and [int]: the values are the ones
    CPython returns for the same calls. *)

Example findall_to_end_of_line :
  matches "a cat, width: 512, height: 768" = [("width", "512, height: 768")].
Proof. reflexivity. Qed.

Example findall_skips_line_breaks :
  matches ("ab: " +:+ nl +:+ nl +:+ "xy:" +:+ nl +:+ " " +:+ nl +:+ "q")
  = [("ab", "xy:")].
Proof. reflexivity. Qed.

Example findall_backtracks_into_space :
  matches ("ab:" +:+ nl +:+ " " +:+ nl) = [("ab", " ")]
  /\ matches ("ab:" +:+ nl +:+ nl) = [].
Proof. split; reflexivity. Qed.

Example findall_second_colon :
  matches ("a:b:c" +:+ nl +:+ "d::e") = [("a", "b:c"); ("d", ":e")].
Proof. reflexivity. Qed.

Example replace_does_not_rescan :
  Str.replace "ab" "" "aabb" = "ab" /\ Str.replace "aa" "" "aaa" = "a".
Proof. split; reflexivity. Qed.

Example int_literals :
  Str.int " 5 " = Some 5%Z /\ Str.int "-5" = Some (-5)%Z
  /\ Str.int "1_000" = Some 1000%Z /\ Str.int "007" = Some 7%Z
  /\ Str.int "- 5" = None /\ Str.int "1__0" = None /\ Str.int "5 6" = None
  /\ Str.int "" = None /\ Str.int "abc" = None.
Proof. repeat split; reflexivity. Qed.

(** [int] converts 4300 digits and refuses 4301, leading zeros counted
    and underscores not; the parser then drops the override. *)
Example int_digit_limit :
  Z.sgn <$> Str.int (str_repeat 4300 "1") = Some 1%Z
  /\ Str.int (str_repeat 4301 "1") = None
  /\ Str.int (str_repeat 4301 "0") = None
  /\ Z.sgn <$> Str.int ("-" +:+ str_repeat 2150 "1_" +:+ str_repeat 2150 "1")
     = Some (-1)%Z
  /\ (parse_prompt_overrides ("seed: " +:+ str_repeat 4301 "1")).2 = ∅.
Proof.
  split; [vm_compute; reflexivity|]. split; [vm_compute; reflexivity|].
  split; [vm_compute; reflexivity|]. split; vm_compute; reflexivity.
Qed.

(** The parser on small prompts. *)

Example parse_one_override_per_line :
  parse_prompt_overrides ("a cat" +:+ nl +:+ "width: 512" +:+ nl +:+ "height: 768")
  = ("a cat", <["height" := VInt 768]> (<["width" := VInt 512]> ∅)).
Proof. vm_compute. reflexivity. Qed.

Example parse_unrecognized_key :
  parse_prompt_overrides "foo: bar" = ("foo: bar", ∅).
Proof. vm_compute. reflexivity. Qed.

(** A recognized override written with a capital or without the space
    is stored but stays in the prompt: the text the loop removes is
    rebuilt from the lower-cased key and one space. *)
Example parse_other_spelling_stays :
  parse_prompt_overrides "Width: 512" = ("Width: 512", {["width" := VInt 512]})
  /\ parse_prompt_overrides "width:512" = ("width:512", {["width" := VInt 512]}).
Proof. split; vm_compute; reflexivity. Qed.

(** * Facts about the parser *)

Lemma numeric_recognized (key : string) :
  key ∈ numeric_keys -> key ∈ recognized_keys.
Proof.
  unfold numeric_keys, recognized_keys. rewrite !elem_of_cons. tauto.
Qed.

Lemma override_text_nonempty (key value : string) :
  override_text key value <> EmptyString.
Proof.
  unfold override_text. destruct key; [|discriminate].
  rewrite StrFacts.app_nil_l. discriminate.
Qed.

(** The entry of [key] after one iteration. *)
Lemma parse_step_lookup (key : string) (st : string * gmap string oval)
    (m : string * string) :
  key ∈ recognized_keys ->
  (parse_step st m).2 !! key =
    match (if bool_decide (Str.lower m.1 = key) then stored key m.2 else None) with
    | Some v => Some v
    | None => st.2 !! key
    end.
Proof.
  intros Hkey. destruct st as [cleaned overrides], m as [k value].
  unfold parse_step, stored. cbn [fst snd].
  destruct (decide (Str.lower k = key)) as [Heq|Hne].
  - rewrite (bool_decide_eq_true_2 _ Heq), Heq, (bool_decide_eq_true_2 _ Hkey).
    destruct (bool_decide (key ∈ numeric_keys));
      [|cbn [snd]; now rewrite lookup_insert_eq].
    destruct (Str.int value) as [z|]; cbn [snd fmap option_fmap option_map];
      [now rewrite lookup_insert_eq | reflexivity].
  - rewrite (bool_decide_eq_false_2 _ Hne).
    destruct (bool_decide (Str.lower k ∈ recognized_keys)); [|reflexivity].
    destruct (bool_decide (Str.lower k ∈ numeric_keys));
      [|cbn [snd]; now rewrite lookup_insert_ne].
    destruct (Str.int value); cbn [snd];
      [now rewrite lookup_insert_ne | reflexivity].
Qed.

(** The entry of [key] after the loop: the last entry a match of [key]
    put there, or the entry the loop started with. *)
Lemma fold_parse_lookup (key : string) (ms : list (string * string)) :
  key ∈ recognized_keys ->
  forall st,
    (fold_left parse_step ms st).2 !! key =
      match last (accepted key ms) with
      | Some v => Some v
      | None => st.2 !! key
      end.
Proof.
  intros Hkey. induction ms as [|m ms IH]; intros st; [reflexivity|].
  cbn [fold_left]. rewrite IH, (parse_step_lookup key st m Hkey).
  unfold accepted. cbn [omap list_omap]. fold (accepted key ms).
  destruct (if bool_decide (Str.lower m.1 = key) then stored key m.2 else None)
    as [v|]; [|reflexivity].
  rewrite last_cons. now destruct (last (accepted key ms)).
Qed.

Lemma accepted_origin (key : string) (ms : list (string * string)) (v : oval) :
  v ∈ accepted key ms ->
  exists k value, (k, value) ∈ ms /\ Str.lower k = key /\ stored key value = Some v.
Proof.
  unfold accepted. rewrite list_elem_of_omap.
  intros ([k value] & Hin & H). cbn [fst snd] in H.
  case_bool_decide; [|discriminate]. now exists k, value.
Qed.


(** The cleaned prompt after an iteration on a recognized key. *)
Lemma parse_step_cleaned (st : string * gmap string oval) (key value : string) :
  Str.lower key ∈ recognized_keys ->
  (parse_step st (key, value)).1
  = Str.strip (Str.replace (override_text (Str.lower key) value) "" st.1).
Proof.
  intros Hrec. destruct st as [cleaned overrides]. unfold parse_step.
  rewrite (bool_decide_eq_true_2 _ Hrec).
  destruct (bool_decide (Str.lower key ∈ numeric_keys)); [|reflexivity].
  now destruct (Str.int value).
Qed.



(** * The properties of the parser *)

(** C2, as the code has it. On the prompt [a cat, width: 512, height: 768]
    the pattern finds one match, whose value runs to the end of the
    line; that value is not an integer literal, so the returned mapping
    is empty, the cleaned prompt is [a cat,], and the text [width: 512]
    does not occur in the cleaned prompt. *)
Theorem comma_separated_prompt_parse :
  matches "a cat, width: 512, height: 768" = [("width", "512, height: 768")]
  /\ Str.int "512, height: 768" = None
  /\ parse_prompt_overrides "a cat, width: 512, height: 768" = ("a cat,", ∅)
  /\ Str.contains "width: 512"
       (parse_prompt_overrides "a cat, width: 512, height: 768").1 = false.
Proof. repeat split; vm_compute; reflexivity. Qed.

(** C2 as stated fails: the mapping returned for that prompt is not
    [{width: 512, height: 768}]. *)
Lemma comma_separated_overrides_not_parsed :
  (parse_prompt_overrides "a cat, width: 512, height: 768").2
  <> <["width" := VInt 512]> (<["height" := VInt 768]> ∅).
Proof.
  intros H. apply (f_equal (fun m => m !! "width")) in H.
  vm_compute in H. discriminate H.
Qed.






(** C8, as the code has it. The entry of a recognized key is the one the
    last match of that key that was not dropped put there: for a numeric
    key the last value that converts to an integer, for the two other
    keys the last value. *)
Theorem last_stored_occurrence_wins (prompt key : string) :
  key ∈ recognized_keys ->
  (parse_prompt_overrides prompt).2 !! key = last (accepted key (matches prompt)).
Proof.
  intros Hkey. unfold parse_prompt_overrides.
  rewrite (fold_parse_lookup key _ Hkey). cbn [snd].
  rewrite lookup_empty. now destruct (last _).
Qed.

Lemma last_stored_occurrence_wins_witness :
  let prompt := "steps: 10" +:+ nl +:+ "steps: 20" in
  "steps" ∈ recognized_keys
  /\ (parse_prompt_overrides prompt).2 !! "steps"
     = last (accepted "steps" (matches prompt))
  /\ (parse_prompt_overrides prompt).2 !! "steps" = Some (VInt 20).
Proof.
  intros prompt.
  assert (H : "steps" ∈ recognized_keys)
    by (apply (bool_decide_unpack _); vm_compute; exact I).
  split; [exact H|]. split.
  - exact (last_stored_occurrence_wins prompt "steps" H).
  - vm_compute. reflexivity.
Defined.

(** C8 as stated fails: on the two lines [steps: 10] and [steps: abc]
    the key is matched twice and the mapping holds 10, the value of the
    first occurrence. *)
Lemma first_occurrence_kept :
  let prompt := "steps: 10" +:+ nl +:+ "steps: abc" in
  matches prompt = [("steps", "10"); ("steps", "abc")]
  /\ (parse_prompt_overrides prompt).2 !! "steps" = Some (VInt 10)
  /\ ~ last_occurrence_wins prompt "steps".
Proof.
  intros prompt. split; [reflexivity|]. split; [vm_compute; reflexivity|].
  intros H. specialize (H "abc").
  destruct H as (v & Hv & Hrep).
  - vm_compute. lia.
  - vm_compute. reflexivity.
  - vm_compute in Hv. injection Hv as <-.
    destruct Hrep as [Hrep | (z & Hz & _)]; [discriminate Hrep|].
    vm_compute in Hz. discriminate Hz.
Qed.

(** * Facts about the runs of the action *)

Ltac run :=
  cbv beta delta [bind lift ret raise emit post try_except] in *;
  cbn [emitted posted fst snd] in *.

Section Events.

(** A loop over strings emits their messages, in order. *)
Lemma for_each_strs (images : list string) (s : state) :
  for_each (PStr <$> images) emit_image s
  = (inr tt, {| emitted := emitted s ++ (image_message <$> images);
                posted := posted s |}).
Proof.
  revert s. induction images as [|x images IH]; intros s.
  - cbn. rewrite app_nil_r. now destruct s.
  - cbn [fmap list_fmap for_each emit_image]. run. rewrite IH.
    cbn [emitted posted]. now rewrite <- app_assoc.
Qed.

Lemma only_messages_ret : only_messages (ret tt).
Proof.
  intros s res s' [= <- <-]. split; [reflexivity|].
  exists []. now rewrite app_nil_r.
Qed.

Lemma only_messages_raise (e : exn) : only_messages (raise e).
Proof.
  intros s res s' [= <- <-]. split; [reflexivity|].
  exists []. now rewrite app_nil_r.
Qed.

Lemma only_messages_emit_image (v : pyval) : only_messages (emit_image v).
Proof.
  destruct v; try apply only_messages_raise.
  intros st res s' [= <- <-]. split; [reflexivity|].
  eexists. split; [reflexivity|]. now repeat constructor.
Qed.

Lemma only_messages_seq (m k : M unit) :
  only_messages m -> only_messages k -> only_messages (m ;;; k).
Proof.
  intros Hm Hk s res s' H. run.
  destruct (m s) as [[e|[]] s1] eqn:Hms.
  - injection H as <- <-. exact (Hm _ _ _ Hms).
  - destruct (Hm _ _ _ Hms) as (Hp1 & msgs1 & He1 & Hf1).
    destruct (Hk _ _ _ H) as (Hp2 & msgs2 & He2 & Hf2).
    split; [congruence|].
    exists (msgs1 ++ msgs2). split.
    + now rewrite He2, He1, app_assoc.
    + now apply Forall_app.
Qed.

Lemma only_messages_for_each (entries : list pyval) :
  only_messages (for_each entries emit_image).
Proof.
  induction entries as [|v entries IH]; [apply only_messages_ret|].
  apply only_messages_seq; [apply only_messages_emit_image | exact IH].
Qed.

Lemma only_messages_lift {A} (r : result A) (k : A -> M unit) :
  (forall a, only_messages (k a)) -> only_messages (x <- lift r ;; k x).
Proof.
  intros Hk s res s' H. run. destruct r as [e|a].
  - injection H as <- <-. split; [reflexivity|].
    exists []. now rewrite app_nil_r.
  - exact (Hk a _ _ _ H).
Qed.

Lemma only_messages_emit_images (data : pyval) :
  only_messages (emit_images data).
Proof.
  unfold emit_images. apply only_messages_lift. intros [|].
  - apply only_messages_lift. intros images.
    destruct (Py.truthy images); [|apply only_messages_ret].
    apply only_messages_lift. intros entries.
    apply only_messages_for_each.
  - apply only_messages_ret.
Qed.

Lemma emit_images_strs (d : list (string * pyval)) (images : list string)
    (s : state) :
  images_of d images ->
  emit_images (PDict d) s
  = (inr tt, {| emitted := emitted s ++ (image_message <$> images);
                posted := posted s |}).
Proof.
  intros [Hd | [Hd ->]]; unfold emit_images; run;
    cbn [Py.contains Py.getitem]; rewrite Hd.
  - rewrite bool_decide_eq_true_2 by (now eexists).
    destruct images as [|x images].
    + cbn. rewrite app_nil_r. now destruct s.
    + cbn [fmap list_fmap Py.truthy Py.iter].
      exact (for_each_strs (x :: images) s).
  - rewrite bool_decide_eq_false_2 by (intros [? ?]; discriminate).
    cbn. rewrite app_nil_r. now destruct s.
Qed.


End Events.

Section Runs.

Variable valves : Valves.
Variable body : list (string * pyval).
Variable w : world.

(** The [try] block, once [data] is known, or the exception raised
    before the loop is. *)
Lemma action_body_data (s : state) :
  exists s0,
    emitted s0 = emitted s
    /\ action_body valves body w s =
       match response_data valves body w with
       | inl e => (inl e, s0)
       | inr data =>
           (emit_images data ;;; emit (Status "Image generated!" true)) s0
       end.
Proof.
  unfold action_body, response_data. run.
  destruct (last_message_content body) as [e|prompt]; [now exists s|].
  destruct (Py.expect_str prompt) as [e|p]; [now exists s|].
  destruct (parse_prompt_overrides p) as [cleaned overrides].
  exists {| emitted := emitted s;
            posted := posted s ++ [build_request valves w cleaned overrides] |}.
  split; [reflexivity|].
  destruct (http_post w _) as [e|r]; [reflexivity|].
  destruct (raise_for_status r) as [e|[]]; [reflexivity|].
  destruct (resp_json r) as [e|data]; reflexivity.
Qed.

(** The notifications of the [try] block: messages, then the final
    status unless an exception was raised. *)
Lemma action_body_events (s : state) (res : result unit) (s' : state) :
  action_body valves body w s = (res, s') ->
  exists msgs,
    Forall (fun ev => is_message ev = true) msgs
    /\ emitted s' = emitted s ++ msgs
         ++ match res with
            | inr _ => [Status "Image generated!" true]
            | inl _ => []
            end.
Proof.
  intros H. destruct (action_body_data s) as (s0 & Hs0 & Hrun).
  rewrite Hrun in H. clear Hrun.
  destruct (response_data valves body w) as [e|data].
  - injection H as <- <-. exists []. split; [constructor|].
    now rewrite Hs0, !app_nil_r.
  - run. destruct (emit_images data s0) as [[e|[]] s1] eqn:Himg;
      destruct (only_messages_emit_images data _ _ _ Himg)
        as (_ & msgs & He & Hf);
      injection H as <- <-; exists msgs; (split; [exact Hf|]); cbn [emitted].
    + now rewrite He, Hs0, app_nil_r.
    + now rewrite He, Hs0, <- app_assoc.
Qed.

Hypothesis has_key : VENICE_API_KEY valves <> EmptyString.

(** With an emitter and a key the action is the first status followed
    by the guarded block. *)
Lemma action_run :
  action valves body (Some HostEmitter) w initial =
    try_except (action_body valves body w)
      (fun e => emit (Status ("Error: " +:+ exn_str e) true)) generating.
Proof.
  unfold action.
  destruct (String.eqb_spec (VENICE_API_KEY valves) "") as [|_];
    [contradiction|].
  reflexivity.
Qed.

(** The one request of a run whose prompt is a [str]. *)
Lemma action_posted (prompt : string) :
  last_message_content body = inr (PStr prompt) ->
  posted (action valves body (Some HostEmitter) w initial).2
  = [build_request valves w (parse_prompt_overrides prompt).1
       (parse_prompt_overrides prompt).2].
Proof.
  intros Hprompt. rewrite action_run.
  unfold try_except, action_body. run. rewrite Hprompt. cbn [Py.expect_str].
  destruct (parse_prompt_overrides prompt) as [cleaned overrides].
  cbn [fst snd].
  destruct (http_post w _) as [e|r]; [reflexivity|].
  destruct (raise_for_status r) as [e|[]]; [reflexivity|].
  destruct (resp_json r) as [e|data]; [reflexivity|].
  destruct (emit_images data _) as [[e|[]] s1] eqn:Himg;
    destruct (only_messages_emit_images data _ _ _ Himg) as [-> _];
    reflexivity.
Qed.

End Runs.

(** ** Runs that end in the handler *)

Section Failures.




Variable valves : Valves.
Variable body : list (string * pyval).
Variable w : world.
Hypothesis has_key : VENICE_API_KEY valves <> EmptyString.




End Failures.

(** * The properties of the action *)

(** The fields of the payload that do merge: the override when the
    mapping has one, the configured value otherwise. *)
Lemma payload_merged_fields (valves : Valves) (w : world) (prompt : string)
    (overrides : gmap string oval) :
  let p := build_payload valves w prompt overrides in
  pl_width p = default (VInt (IMAGE_WIDTH valves)) (overrides !! "width")
  /\ pl_height p = default (VInt (IMAGE_HEIGHT valves)) (overrides !! "height")
  /\ pl_steps p = default (VInt (STEPS valves)) (overrides !! "steps")
  /\ pl_cfg_scale p = default (VInt (CFG_SCALE valves)) (overrides !! "cfg_scale")
  /\ pl_negative_prompt p
     = default (VStr (NEGATIVE_PROMPT valves)) (overrides !! "negative_prompt").
Proof.
  cbn [build_payload pl_width pl_height pl_steps pl_cfg_scale pl_negative_prompt].
  unfold overrides_get. repeat split; now destruct (overrides !! _).
Qed.

(** The two fields that do not: the style preset is the configured one
    whatever the mapping holds, and the seed is the override or else the
    number drawn, whatever the configured seed. *)
Lemma payload_unmerged_fields (valves : Valves) (w : world) (prompt : string)
    (overrides : gmap string oval) :
  let p := build_payload valves w prompt overrides in
  pl_style_preset p = STYLE_PRESET valves
  /\ pl_seed p = default (VInt (randint_0_999999 w)) (overrides !! "seed").
Proof.
  cbn [build_payload pl_style_preset pl_seed]. unfold overrides_get.
  split; [reflexivity | now destruct (overrides !! _)].
Qed.

(** C1, the code at a failing input. With the default configuration
    (style preset [Photographic], seed 123) and the message
    [a cat / style_preset: Anime], the parser stores the override
    [style_preset = Anime], yet the payload of the one request posted
    carries the configured style preset, and its seed is the number drawn
    at random, not the configured seed. *)
Theorem style_override_and_seed_setting_unused (rand : Z)
    (outcome : result response) :
  let w := world_with rand outcome in
  let text := "a cat" +:+ nl +:+ "style_preset: Anime" in
  (parse_prompt_overrides text).2 !! "style_preset" = Some (VStr "Anime")
  /\ STYLE_PRESET keyed_valves = "Photographic"
  /\ SEED keyed_valves = Some 123%Z
  /\ exists rq,
       posted (action keyed_valves (chat text) (Some HostEmitter) w initial).2
       = [rq]
       /\ pl_prompt (rq_json rq) = "a cat"
       /\ pl_style_preset (rq_json rq) = "Photographic"
       /\ pl_seed (rq_json rq) = VInt rand.
Proof.
  intros w text. split; [vm_compute; reflexivity|].
  split; [reflexivity|]. split; [reflexivity|].
  eexists. split.
  - apply (action_posted keyed_valves (chat text) w); [discriminate|].
    reflexivity.
  - repeat split; vm_compute; reflexivity.
Qed.




(** C4. Without an event emitter, or with an empty API key, the action
    returns at once and leaves the state as it was: no notification is
    emitted and no request is posted, whatever the chat body. *)
Theorem action_noop_without_emitter_or_key (valves : Valves)
    (body : list (string * pyval)) (__event_emitter__ : option emitter)
    (w : world) (s : state) :
  __event_emitter__ = None \/ VENICE_API_KEY valves = "" ->
  action valves body __event_emitter__ w s = (inr tt, s).
Proof.
  intros [-> | Hkey]; unfold action; [reflexivity|].
  rewrite Hkey, orb_true_r. reflexivity.
Qed.

Lemma action_noop_without_emitter_or_key_witness :
  let w := world_with 7 (inr (ok_response (PDict []))) in
  (Some HostEmitter = None \/ VENICE_API_KEY default_valves = "")
  /\ action default_valves (chat "a cat") (Some HostEmitter) w initial
     = (inr tt, initial).
Proof.
  intros w.
  assert (H : Some HostEmitter = None \/ VENICE_API_KEY default_valves = "")
    by (right; reflexivity).
  split; [exact H|].
  exact (action_noop_without_emitter_or_key default_valves (chat "a cat")
           (Some HostEmitter) w initial H).
Defined.

(** C6, as the code has it. When the response decodes to an object whose
    [images] entry is a list of strings (or is absent), the run emits the
    first status, then one message per entry, in the order of the list
    and with the assistant role, then the final status; the content of a
    message is [![image](entry)] when the entry starts with the four
    characters [http] and [![image](data:image/png;base64,entry)]
    otherwise. With no entry there is no message. A run in which no
    exception is raised ends with the final status. *)
Theorem images_become_messages (valves : Valves) (body : list (string * pyval))
    (w : world) :
  VENICE_API_KEY valves <> "" ->
  let evs := emitted (action valves body (Some HostEmitter) w initial).2 in
  (forall d images,
      response_data valves body w = inr (PDict d) -> images_of d images ->
      evs = [Status "Generating image..." false]
            ++ (image_message <$> images)
            ++ [Status "Image generated!" true])
  /\ (forall entry,
        image_message entry =
          Message (if Str.startswith "http" entry
                   then "![image](" +:+ entry +:+ ")"
                   else "![image](data:image/png;base64," +:+ entry +:+ ")")
                  "assistant")
  /\ (forall s1,
        action_body valves body w generating = (inr tt, s1) ->
        last evs = Some (Status "Image generated!" true)).
Proof.
  intros Hkey evs. unfold evs. rewrite (action_run _ _ _ Hkey). clear evs.
  repeat split.
  - intros d images Hdata Himgs.
    destruct (action_body_data valves body w generating) as (s0 & Hs0 & Hrun).
    rewrite Hdata in Hrun. unfold try_except. rewrite Hrun. run.
    rewrite (emit_images_strs d images s0 Himgs). cbn [emitted snd].
    now rewrite Hs0, <- app_assoc.
  - intros s1 Hbody. unfold try_except. rewrite Hbody. cbn [snd].
    destruct (action_body_events _ _ _ _ _ _ Hbody) as (msgs & _ & ->).
    now rewrite !app_assoc, last_snoc.
Qed.

Lemma images_become_messages_witness :
  let data := PDict [("images", PList [PStr "http://x/y.png"])] in
  let w := world_with 7 (inr (ok_response data)) in
  VENICE_API_KEY keyed_valves <> ""
  /\ response_data keyed_valves (chat "a cat") w = inr data
  /\ images_of [("images", PList [PStr "http://x/y.png"])] ["http://x/y.png"]
  /\ emitted (action keyed_valves (chat "a cat") (Some HostEmitter) w initial).2
     = [Status "Generating image..." false;
        Message "![image](http://x/y.png)" "assistant";
        Status "Image generated!" true].
Proof.
  intros data w.
  assert (Hkey : VENICE_API_KEY keyed_valves <> "") by discriminate.
  assert (Hdata : response_data keyed_valves (chat "a cat") w = inr data)
    by (vm_compute; reflexivity).
  assert (Himgs : images_of [("images", PList [PStr "http://x/y.png"])]
                    ["http://x/y.png"]) by (left; reflexivity).
  split; [exact Hkey|]. split; [exact Hdata|]. split; [exact Himgs|].
  exact (proj1 (images_become_messages keyed_valves (chat "a cat") w Hkey)
           _ _ Hdata Himgs).
Defined.

(** C6 as stated fails: the entry [httpAAAA] is not an HTTP(S) URL, yet
    its message is [![image](httpAAAA)] and not the data URL; and an
    entry that is not a string, here the number 42, produces no message
    but the error status. *)
Lemma image_entries_not_as_stated :
  let run data :=
    emitted (action keyed_valves (chat "a cat") (Some HostEmitter)
               (world_with 7 (inr (ok_response data))) initial).2 in
  is_http_url "httpAAAA" = false
  /\ run (PDict [("images", PList [PStr "httpAAAA"])])
     = [Status "Generating image..." false;
        Message "![image](httpAAAA)" "assistant";
        Status "Image generated!" true]
  /\ url_or_base64_markdown "httpAAAA" = "![image](data:image/png;base64,httpAAAA)"
  /\ image_markdown "httpAAAA" <> url_or_base64_markdown "httpAAAA"
  /\ run (PDict [("images", PList [PInt 42])])
     = [Status "Generating image..." false;
        Status "Error: 'int' object has no attribute 'startswith'" true].
Proof.
  intros run. repeat split; try (vm_compute; reflexivity).
  vm_compute. discriminate.
Qed.

(** C9, the code at a failing input. For the chat body whose [messages]
    list is present and empty, reading the last message raises
    [IndexError]: the run emits the first status and the status
    [Error: list index out of range], and posts no request. *)
Theorem empty_messages_list_raises (w : world) :
  last_message_content [("messages", PList [])]
  = inl (Exn "IndexError" "list index out of range")
  /\ action keyed_valves [("messages", PList [])] (Some HostEmitter) w initial
     = (inr tt,
        {| emitted := [Status "Generating image..." false;
                       Status "Error: list index out of range" true];
           posted := [] |}).
Proof. split; reflexivity. Qed.

(** Where the fallback of step 2 does apply: no [messages] key, or a
    last message without [content]. *)
Lemma absent_content_is_empty_prompt :
  last_message_content [] = inr (PStr "")
  /\ last_message_content [("messages", PList [PDict [("role", PStr "user")]])]
     = inr (PStr "").
Proof. split; reflexivity. Qed.

(** C10. For every string, the body of [_process_base64_image] returns
    [![image](data:image/png;base64,<input>)] without raising, so the
    function returns exactly that string and never the text of its
    handler, [Error processing image: ...]. *)
Theorem process_base64_image_total (image_data : string) :
  process_base64_body image_data
  = inr ("![image](data:image/png;base64," +:+ image_data +:+ ")")
  /\ _process_base64_image image_data
     = "![image](data:image/png;base64," +:+ image_data +:+ ")"
  /\ Str.startswith "Error processing image" (_process_base64_image image_data)
     = false.
Proof. repeat split; reflexivity. Qed.

(** * More about the matcher and the parser *)

Section MoreMatcherFacts.

(** A match found by the scan is a match of a suffix of the text. *)
Lemma scan_suffix (s : string) :
  forall skip gs,
    gs ∈ Re.scan override_pattern skip s ->
    exists before t rest,
      s = before +:+ t /\ Re.match_here override_pattern t = Some (gs, rest).
Proof.
  induction s as [|c s IH]; intros skip gs H; cbn [Re.scan] in H.
  - now apply elem_of_nil in H.
  - assert (Hlater : forall n, gs ∈ Re.scan override_pattern n s ->
                     exists before t rest,
                       String c s = before +:+ t
                       /\ Re.match_here override_pattern t = Some (gs, rest)).
    { intros n Hin. destruct (IH _ _ Hin) as (before & t & rest & -> & Hm).
      now exists (String c before), t, rest. }
    destruct skip as [|n]; [|exact (Hlater _ H)].
    destruct (Re.match_here override_pattern (String c s)) as [[gs' rest]|] eqn:Hm;
      [|exact (Hlater _ H)].
    apply elem_of_cons in H as [->|H]; [|exact (Hlater _ H)].
    now exists "", (String c s), rest.
Qed.

Lemma matches_in_prompt (prompt key value : string) :
  (key, value) ∈ matches prompt ->
  exists before ws after,
    prompt = before +:+ key +:+ ":" +:+ ws +:+ value +:+ after
    /\ str_all Char.is_space ws = true
    /\ override_shape key value.
Proof.
  unfold Re.findall. rewrite list_elem_of_fmap. intros (gs & E & Hin).
  destruct (scan_suffix _ _ _ Hin) as (before & t & rest & -> & Hm).
  destruct (override_match_sound _ _ _ Hm) as (k & ws & v & -> & -> & Hws & Hshape).
  cbn [nth] in E. injection E as -> ->.
  now exists before, ws, rest.
Qed.

End MoreMatcherFacts.

(** X1. Every pair [findall] returns for the override pattern is read
    off the prompt: the prompt holds the key, a colon, white space and
    the value, in this order; the key is a non-empty run of word
    characters and the value is not empty and holds no line break. *)
Theorem match_is_word_colon_value (prompt key value : string) :
  (key, value) ∈ matches prompt ->
  (exists before ws after,
      prompt = before +:+ key +:+ ":" +:+ ws +:+ value +:+ after
      /\ str_all Char.is_space ws = true)
  /\ key <> "" /\ str_all Char.is_word key = true
  /\ value <> "" /\ str_all Char.not_newline value = true.
Proof.
  intros H. destruct (matches_in_prompt _ _ _ H)
    as (before & ws & after & E & Hws & Hk & Hkw & Hv & Hvn).
  split; [now exists before, ws, after | now repeat split].
Qed.

Lemma match_is_word_colon_value_witness :
  let prompt := "a cat" +:+ nl +:+ "Seed:  42" in
  ("Seed", "42") ∈ matches prompt
  /\ str_all Char.is_word "Seed" = true
  /\ str_all Char.not_newline "42" = true.
Proof.
  intros prompt.
  assert (H : ("Seed", "42") ∈ matches prompt)
    by (apply (bool_decide_unpack _); vm_compute; exact I).
  split; [exact H|].
  destruct (match_is_word_colon_value prompt "Seed" "42" H)
    as (_ & _ & Hk & _ & Hv).
  now split.
Defined.

Section MoreParserFacts.

Lemma str_all_app (cls : ascii -> bool) (a b : string) :
  str_all cls (a +:+ b) = str_all cls a && str_all cls b.
Proof.
  induction a as [|c a IH]; [reflexivity|].
  rewrite StrFacts.app_cons. cbn [str_all]. now rewrite IH, andb_assoc.
Qed.

(** An iteration leaves the entries of the other keys alone. *)
Lemma parse_step_other (key : string) (st : string * gmap string oval)
    (m : string * string) :
  key ∉ recognized_keys -> (parse_step st m).2 !! key = st.2 !! key.
Proof.
  intros Hkey. destruct st as [cleaned overrides], m as [k value].
  unfold parse_step.
  destruct (decide (Str.lower k ∈ recognized_keys)) as [Hrec|Hrec].
  - assert (Hne : Str.lower k <> key) by congruence.
    rewrite (bool_decide_eq_true_2 _ Hrec).
    destruct (bool_decide (Str.lower k ∈ numeric_keys));
      [destruct (Str.int value)|]; cbn [snd];
      rewrite ?lookup_insert_ne by exact Hne; reflexivity.
  - now rewrite (bool_decide_eq_false_2 _ Hrec).
Qed.

Lemma fold_parse_other (key : string) (ms : list (string * string)) :
  key ∉ recognized_keys ->
  forall st, (fold_left parse_step ms st).2 !! key = st.2 !! key.
Proof.
  intros Hkey. induction ms as [|m ms IH]; intros st; [reflexivity|].
  cbn [fold_left]. now rewrite IH, parse_step_other.
Qed.

(** An iteration on a key that is not recognized changes nothing. *)
Lemma parse_step_unrecognized (st : string * gmap string oval)
    (m : string * string) :
  Str.lower m.1 ∉ recognized_keys -> parse_step st m = st.
Proof.
  intros H. destruct st as [cleaned overrides], m as [k value].
  unfold parse_step. cbn [fst] in H. now rewrite (bool_decide_eq_false_2 _ H).
Qed.

End MoreParserFacts.

(** X2. Every entry of the mapping the parser returns has a
    recognized key and comes from a match of that key (in any case of
    letters): under a numeric key it is the integer the matched value
    converts to, under the two other keys the matched value itself. *)
Theorem override_entry_origin (prompt key : string) (v : oval) :
  (parse_prompt_overrides prompt).2 !! key = Some v ->
  key ∈ recognized_keys
  /\ exists k value,
       ((k, value) ∈ matches prompt) /\ Str.lower k = key
       /\ ((key ∈ numeric_keys /\ exists z, Str.int value = Some z /\ v = VInt z)
           \/ ((key ∉ numeric_keys) /\ v = VStr value)).
Proof.
  intros Hv.
  destruct (decide (key ∈ recognized_keys)) as [Hrec|Hrec].
  - split; [exact Hrec|]. unfold parse_prompt_overrides in Hv.
    rewrite (fold_parse_lookup key _ Hrec) in Hv. cbn [snd] in Hv.
    rewrite lookup_empty in Hv.
    destruct (last (accepted key (matches prompt))) as [v'|] eqn:Hlast;
      [|discriminate Hv].
    injection Hv as ->. apply last_Some_elem_of in Hlast.
    destruct (accepted_origin _ _ _ Hlast) as (k & value & Hin & Hk & Hst).
    exists k, value. split; [exact Hin|]. split; [exact Hk|].
    unfold stored in Hst. case_bool_decide as Hnum.
    + left. split; [exact Hnum|].
      destruct (Str.int value) as [z|]; [|discriminate Hst].
      injection Hst as <-. now exists z.
    + right. split; [exact Hnum|]. now injection Hst as <-.
  - unfold parse_prompt_overrides in Hv.
    rewrite (fold_parse_other key _ Hrec) in Hv. cbn [snd] in Hv.
    rewrite lookup_empty in Hv. discriminate Hv.
Qed.

Lemma override_entry_origin_witness :
  let prompt := "a cat" +:+ nl +:+ "Negative_Prompt: blurry, dark" in
  (parse_prompt_overrides prompt).2 !! "negative_prompt"
  = Some (VStr "blurry, dark")
  /\ "negative_prompt" ∈ recognized_keys.
Proof.
  intros prompt.
  assert (H : (parse_prompt_overrides prompt).2 !! "negative_prompt"
              = Some (VStr "blurry, dark")) by (vm_compute; reflexivity).
  split; [exact H|].
  exact (proj1 (override_entry_origin prompt "negative_prompt" _ H)).
Defined.

(** X3. When no match has a recognized key, the parser returns the
    prompt as it is, not trimmed, with an empty mapping. *)
Theorem unrecognized_matches_leave_prompt (prompt : string) :
  (forall k value, (k, value) ∈ matches prompt -> Str.lower k ∉ recognized_keys) ->
  parse_prompt_overrides prompt = (prompt, ∅).
Proof.
  unfold parse_prompt_overrides. generalize (matches prompt) as ms.
  induction ms as [|[k value] ms IH]; intros H; [reflexivity|].
  cbn [fold_left]. rewrite parse_step_unrecognized.
  - apply IH. intros k' value' Hin. apply (H k' value'). now right.
  - apply (H k value). now left.
Qed.

Lemma unrecognized_matches_leave_prompt_witness :
  let prompt := "  note: a cat at 10:30  " in
  (forall k value, (k, value) ∈ matches prompt -> Str.lower k ∉ recognized_keys)
  /\ parse_prompt_overrides prompt = (prompt, ∅).
Proof.
  intros prompt.
  assert (H : forall k value,
             (k, value) ∈ matches prompt -> Str.lower k ∉ recognized_keys).
  { intros k value Hin.
    assert (E : matches prompt = [("note", "a cat at 10:30  ")])
      by (vm_compute; reflexivity).
    rewrite E in Hin. apply list_elem_of_singleton in Hin. injection Hin as -> ->.
    apply (bool_decide_unpack _). vm_compute. exact I. }
  split; [exact H|]. exact (unrecognized_matches_leave_prompt prompt H).
Defined.

(** X4. A prompt without colon has no match: it is returned as it
    is, white space at both ends included, with an empty mapping. *)
Theorem colon_free_prompt_untouched (prompt : string) :
  colon_free prompt = true ->
  matches prompt = [] /\ parse_prompt_overrides prompt = (prompt, ∅).
Proof.
  intros Hfree.
  assert (Hnone : matches prompt = []).
  { destruct (matches prompt) as [|[k value] ms] eqn:E; [reflexivity|].
    assert (Hin : (k, value) ∈ matches prompt) by (rewrite E; now left).
    destruct (matches_in_prompt _ _ _ Hin) as (before & ws & after & Hp & _).
    rewrite Hp in Hfree. unfold colon_free in Hfree.
    rewrite !str_all_app in Hfree. cbn in Hfree.
    rewrite !andb_false_r in Hfree. discriminate Hfree. }
  split; [exact Hnone|]. unfold parse_prompt_overrides. now rewrite Hnone.
Qed.

Lemma colon_free_prompt_untouched_witness :
  colon_free "  a cat on a mat " = true
  /\ parse_prompt_overrides "  a cat on a mat " = ("  a cat on a mat ", ∅).
Proof.
  assert (H : colon_free "  a cat on a mat " = true) by reflexivity.
  split; [exact H|]. exact (proj2 (colon_free_prompt_untouched _ H)).
Defined.

Section Subsequence.

Lemma length_chars_of (s : string) : length (chars_of s) = String.length s.
Proof. induction s as [|c s IH]; [reflexivity|]. cbn. now rewrite IH. Qed.

Lemma intersperse_empty (s : string) : Str.intersperse "" s = s.
Proof.
  induction s as [|c s IH]; [reflexivity|].
  cbn [Str.intersperse]. now rewrite StrFacts.app_nil_l, IH.
Qed.

Lemma replace_scan_sublist (old s : string) :
  forall skip, chars_of (Str.replace_scan old "" skip s) `sublist_of` chars_of s.
Proof.
  induction s as [|c s IH]; intros skip; cbn [Str.replace_scan chars_of].
  - constructor.
  - destruct skip as [|n]; [|apply sublist_cons, IH].
    destruct (Str.startswith old (String c s)).
    + rewrite StrFacts.app_nil_l. apply sublist_cons, IH.
    + cbn [chars_of]. apply sublist_skip, IH.
Qed.

Lemma replace_sublist (old s : string) :
  chars_of (Str.replace old "" s) `sublist_of` chars_of s.
Proof.
  destruct old; cbn [Str.replace].
  - now rewrite intersperse_empty.
  - apply replace_scan_sublist.
Qed.

Lemma lstrip_by_sublist (ws : ascii -> bool) (s : string) :
  chars_of (Str.lstrip_by ws s) `sublist_of` chars_of s.
Proof.
  induction s as [|c s IH]; cbn [Str.lstrip_by]; [constructor|].
  destruct (ws c); [now apply sublist_cons | reflexivity].
Qed.

Lemma rstrip_by_sublist (ws : ascii -> bool) (s : string) :
  chars_of (Str.rstrip_by ws s) `sublist_of` chars_of s.
Proof.
  induction s as [|c s IH]; cbn [Str.rstrip_by]; [constructor|].
  destruct (Str.rstrip_by ws s) as [|y r].
  - destruct (ws c); cbn [chars_of]; [apply sublist_nil_l|].
    apply sublist_skip, sublist_nil_l.
  - cbn [chars_of] in *. now apply sublist_skip.
Qed.

Lemma strip_sublist (s : string) :
  chars_of (Str.strip s) `sublist_of` chars_of s.
Proof.
  unfold Str.strip. etransitivity; [apply rstrip_by_sublist|].
  apply lstrip_by_sublist.
Qed.

Lemma parse_step_sublist (st : string * gmap string oval) (m : string * string) :
  chars_of (parse_step st m).1 `sublist_of` chars_of st.1.
Proof.
  destruct m as [key value].
  destruct (decide (Str.lower key ∈ recognized_keys)) as [Hrec|Hrec].
  - rewrite (parse_step_cleaned st key value Hrec).
    etransitivity; [apply strip_sublist | apply replace_sublist].
  - now rewrite (parse_step_unrecognized st (key, value) Hrec).
Qed.

Lemma fold_parse_sublist (ms : list (string * string)) :
  forall st, chars_of (fold_left parse_step ms st).1 `sublist_of` chars_of st.1.
Proof.
  induction ms as [|m ms IH]; intros st; [reflexivity|].
  cbn [fold_left]. etransitivity; [apply IH | apply parse_step_sublist].
Qed.

End Subsequence.

(** X5. The parser only deletes characters: the cleaned prompt is a
    subsequence of the prompt, so it is never longer. *)
Theorem cleaned_prompt_is_subsequence (prompt : string) :
  chars_of (parse_prompt_overrides prompt).1 `sublist_of` chars_of prompt
  /\ String.length (parse_prompt_overrides prompt).1 <= String.length prompt.
Proof.
  assert (H : chars_of (parse_prompt_overrides prompt).1
              `sublist_of` chars_of prompt)
    by apply (fold_parse_sublist (matches prompt) (prompt, ∅)).
  split; [exact H|]. apply sublist_length in H.
  now rewrite !length_chars_of in H.
Qed.

Section OverrideLine.

(** The repetition takes the whole run of the class when the rest of
    the pattern matches after it. *)
Lemma rep_greedy {R} (cls : ascii -> bool) (k : string -> string -> option R)
    (w rest : string) (r : R) :
  str_all cls w = true ->
  (forall c rest', rest = String c rest' -> cls c = false) ->
  forall min acc,
    min <= String.length w -> k (acc +:+ w) rest = Some r ->
    Re.rep cls k min acc (w +:+ rest) = Some r.
Proof.
  intros Hw Hrest. induction w as [|c w IH]; intros min acc Hmin Hk.
  - cbn [String.length] in Hmin. assert (min = 0) as -> by lia.
    rewrite StrFacts.app_nil_r in Hk. rewrite StrFacts.app_nil_l.
    destruct rest as [|c rest']; cbn [Re.rep]; [exact Hk|].
    now rewrite (Hrest c rest' eq_refl).
  - cbn [str_all] in Hw. apply andb_true_iff in Hw as [Hc Hw].
    rewrite StrFacts.app_cons. cbn [Re.rep]. rewrite Hc.
    rewrite (IH Hw (pred min) (acc +:+ String c "")); [reflexivity | |].
    + cbn [String.length] in Hmin. lia.
    + now rewrite StrFacts.app_assoc.
Qed.

(** The pattern matches a key, a colon, white space and a value that
    runs to the end of its line. *)
Lemma override_match_complete (key ws value rest : string) :
  key <> "" -> str_all Char.is_word key = true ->
  str_all Char.is_space ws = true ->
  plain_value value ->
  (forall c rest', rest = String c rest' -> Char.not_newline c = false) ->
  Re.match_here override_pattern (key +:+ ":" +:+ ws +:+ value +:+ rest)
  = Some ([key; value], rest).
Proof.
  intros Hk Hkw Hws (Hvn & c & r & -> & Hc) Hrest.
  unfold override_pattern. cbn [Re.match_here Re.atom_match].
  apply rep_greedy; try assumption.
  - intros c' rest' [= <- _]. reflexivity.
  - destruct key; [congruence | cbn [String.length]; lia].
  - rewrite (StrFacts.app_cons ":" "" _), !StrFacts.app_nil_l.
    cbv beta iota. rewrite Ascii.eqb_refl.
    rewrite (rep_greedy Char.is_space _ ws (String c r +:+ rest)
               ([String c r], rest)); [reflexivity | exact Hws | | lia |].
    + rewrite StrFacts.app_cons. now intros c' rest' [= <- _].
    + cbv beta.
      apply (rep_greedy Char.not_newline _ (String c r) rest);
        [exact Hvn | exact Hrest | cbn [String.length]; lia |].
      now rewrite StrFacts.app_nil_l.
Qed.

(** After the word characters at its start, a text the pattern matches
    goes on with a colon. *)
Lemma lstrip_word_run (w rest : string) :
  str_all Char.is_word w = true ->
  Str.lstrip_by Char.is_word (w +:+ rest) = Str.lstrip_by Char.is_word rest.
Proof.
  induction w as [|c w IH]; intros Hw; [reflexivity|].
  cbn [str_all] in Hw. apply andb_true_iff in Hw as [Hc Hw].
  rewrite StrFacts.app_cons. cbn [Str.lstrip_by]. rewrite Hc. now apply IH.
Qed.

Lemma match_colon_after_word (s : string) (gs : list string) (rest : string) :
  Re.match_here override_pattern s = Some (gs, rest) ->
  exists r, Str.lstrip_by Char.is_word s = String ":" r.
Proof.
  intros H.
  destruct (override_match_sound _ _ _ H) as (k & ws & v & _ & -> & _ & _ & Hkw & _).
  rewrite (lstrip_word_run _ _ Hkw). now eexists.
Qed.

Lemma colon_free_word_run (u : string) (c : ascii) (tail : string) :
  colon_free u = true -> Char.is_word c = false -> c <> ":"%char ->
  exists c' r,
    Str.lstrip_by Char.is_word (u +:+ String c tail) = String c' r
    /\ c' <> ":"%char.
Proof.
  intros Hu Hc Hne. induction u as [|x u IH].
  - rewrite StrFacts.app_nil_l. cbn [Str.lstrip_by]. rewrite Hc. now eexists _, _.
  - unfold colon_free in Hu. cbn [str_all] in Hu.
    apply andb_true_iff in Hu as [Hx Hu].
    rewrite StrFacts.app_cons. cbn [Str.lstrip_by].
    destruct (Char.is_word x); [now apply IH|].
    exists x, (u +:+ String c tail). split; [reflexivity|].
    intros ->. discriminate Hx.
Qed.

(** No match starts in a text without colon that a line break ends. *)
Lemma no_match_before_break (u tail : string) :
  colon_free u = true ->
  Re.match_here override_pattern (u +:+ nl +:+ tail) = None.
Proof.
  intros Hu.
  destruct (Re.match_here override_pattern (u +:+ nl +:+ tail))
    as [[gs rest]|] eqn:Hm; [|reflexivity].
  destruct (match_colon_after_word _ _ _ Hm) as [r Hr].
  destruct (colon_free_word_run u (ascii_of_N 10) tail Hu eq_refl)
    as (c' & r' & Hr' & Hne); [discriminate|].
  change (u +:+ nl +:+ tail) with (u +:+ String (ascii_of_N 10) tail) in Hr.
  rewrite Hr' in Hr. injection Hr as -> _. congruence.
Qed.

Lemma scan_before_break (text tail : string) :
  colon_free text = true ->
  Re.scan override_pattern 0 (text +:+ nl +:+ tail)
  = Re.scan override_pattern 0 tail.
Proof.
  induction text as [|x text IH]; intros Hfree.
  - pose proof (no_match_before_break "" tail eq_refl) as Hm.
    rewrite StrFacts.app_nil_l in Hm |- *.
    change (nl +:+ tail) with (String (ascii_of_N 10) tail) in Hm |- *.
    cbn [Re.scan]. now rewrite Hm.
  - pose proof (no_match_before_break _ tail Hfree) as Hm.
    rewrite StrFacts.app_cons in Hm |- *. cbn [Re.scan]. rewrite Hm.
    apply IH. unfold colon_free in Hfree |- *. cbn [str_all] in Hfree.
    now apply andb_true_iff in Hfree as [_ Hfree].
Qed.

Lemma scan_skip_all (s : string) :
  Re.scan override_pattern (String.length s) s = [].
Proof. induction s as [|c s IH]; [reflexivity | exact IH]. Qed.

Lemma scan_whole (s : string) (gs : list string) :
  s <> "" -> Re.match_here override_pattern s = Some (gs, "") ->
  Re.scan override_pattern 0 s = [gs].
Proof.
  intros Hs Hm. destruct s as [|c s]; [congruence|].
  cbn [Re.scan]. rewrite Hm. cbn [String.length].
  replace (S (String.length s) - 0 - 1) with (String.length s) by lia.
  now rewrite scan_skip_all.
Qed.

End OverrideLine.

Section OverrideLine2.

Lemma recognized_key_shape (key : string) :
  key ∈ recognized_keys ->
  Str.lower key = key /\ key <> "" /\ str_all Char.is_word key = true.
Proof.
  unfold recognized_keys. rewrite !elem_of_cons, elem_of_nil.
  intros [->|[->|[->|[->|[->|[->|[->|[]]]]]]]]; now vm_compute.
Qed.

Variables text key value : string.
Hypothesis text_free : colon_free text = true.
Hypothesis key_recognized : key ∈ recognized_keys.
Hypothesis value_plain : plain_value value.

Lemma override_line_matches :
  matches (text +:+ nl +:+ override_text key value) = [(key, value)].
Proof.
  destruct (recognized_key_shape key key_recognized) as (_ & Hk & Hkw).
  unfold Re.findall. rewrite (scan_before_break _ _ text_free).
  rewrite (scan_whole (override_text key value) [key; value]); [reflexivity | |].
  - unfold override_text. destruct key; [congruence | discriminate].
  - pose proof (override_match_complete key " " value "" Hk Hkw eq_refl
                  value_plain) as Hm.
    rewrite StrFacts.app_nil_r in Hm. apply Hm. intros c rest' [=].
Qed.

(** The text and its line break hold no occurrence of the override. *)
Lemma override_line_first_at :
  first_at (override_text key value) (text +:+ nl)
    (override_text key value +:+ "").
Proof.
  destruct (recognized_key_shape key key_recognized) as (_ & Hk & Hkw).
  intros a1 c a2 E.
  assert (Hsuffix : exists u, colon_free u = true
                      /\ String c a2 = u +:+ nl).
  { clear -E text_free. revert a1 E.
    induction text as [|x t IH]; intros a1 E.
    - destruct a1 as [|y a1]; rewrite ?StrFacts.app_nil_l, ?StrFacts.app_cons in E.
      + exists "". split; [reflexivity|]. now rewrite StrFacts.app_nil_l, <- E.
      + injection E as _ E. destruct a1; discriminate E.
    - unfold colon_free in text_free. cbn [str_all] in text_free.
      apply andb_true_iff in text_free as [Hx Ht].
      destruct a1 as [|y a1]; rewrite ?StrFacts.app_nil_l, ?StrFacts.app_cons in E.
      + exists (String x t). split; [|now rewrite <- E].
        unfold colon_free. cbn [str_all]. now rewrite Hx, Ht.
      + injection E as _ E. exact (IH Ht a1 E). }
  destruct Hsuffix as (u & Hu & ->).
  destruct (Str.startswith _ _) eqn:Hs; [|reflexivity].
  apply StrFacts.startswith_split in Hs as [b Hb].
  destruct (colon_free_word_run u (ascii_of_N 10)
              (override_text key value +:+ "") Hu eq_refl)
    as (c' & r & Hr & Hne); [discriminate|].
  rewrite StrFacts.app_assoc in Hb.
  change (u +:+ nl +:+ override_text key value +:+ "")
    with (u +:+ String (ascii_of_N 10) (override_text key value +:+ "")) in Hb.
  rewrite Hb in Hr. unfold override_text in Hr.
  rewrite !StrFacts.app_assoc, (lstrip_word_run _ _ Hkw) in Hr.
  injection Hr as <- _. congruence.
Qed.

Lemma override_line_replace :
  Str.replace (override_text key value) ""
    (text +:+ nl +:+ override_text key value)
  = text +:+ nl.
Proof.
  pose proof (override_text_nonempty key value) as Hne.
  assert (E : Str.replace (override_text key value) ""
                (text +:+ nl +:+ override_text key value)
              = Str.replace_scan (override_text key value) "" 0
                  ((text +:+ nl) +:+ override_text key value +:+ "")).
  { rewrite StrFacts.app_nil_r, StrFacts.app_assoc.
    destruct (override_text key value); [congruence | reflexivity]. }
  rewrite E, (StrFacts.replace_scan_first _ "" _ "" Hne override_line_first_at).
  cbn [Str.replace_scan]. now rewrite StrFacts.app_nil_l, StrFacts.app_nil_r.
Qed.

End OverrideLine2.

Lemma rstrip_by_space_end (ws : ascii -> bool) (s : string) (c : ascii) :
  ws c = true -> Str.rstrip_by ws (s +:+ String c "") = Str.rstrip_by ws s.
Proof.
  intros Hc. induction s as [|x s IH].
  - rewrite StrFacts.app_nil_l. cbn [Str.rstrip_by]. now rewrite Hc.
  - rewrite StrFacts.app_cons. cbn [Str.rstrip_by]. now rewrite IH.
Qed.

Lemma lstrip_by_space_end (ws : ascii -> bool) (s : string) (c : ascii) :
  ws c = true ->
  Str.lstrip_by ws (s +:+ String c "") = Str.lstrip_by ws s
  \/ Str.lstrip_by ws (s +:+ String c "") = Str.lstrip_by ws s +:+ String c "".
Proof.
  intros Hc. induction s as [|x s IH].
  - left. rewrite StrFacts.app_nil_l. cbn [Str.lstrip_by]. now rewrite Hc.
  - rewrite StrFacts.app_cons. cbn [Str.lstrip_by].
    destruct (ws x); [exact IH | now right].
Qed.

Lemma strip_space_end (s : string) (c : ascii) :
  Char.is_space c = true -> Str.strip (s +:+ String c "") = Str.strip s.
Proof.
  intros Hc. unfold Str.strip.
  destruct (lstrip_by_space_end Char.is_space s c Hc) as [-> | ->];
    [reflexivity | now apply rstrip_by_space_end].
Qed.

(** X6. A text without colon followed by a line [key: value], with a
    recognized key in lower case, one space and a value that does not
    start with white space, is parsed into the trimmed text and the one
    entry for the key; when the key is numeric and the value is not an
    integer the mapping is empty, and the line is removed all the
    same. *)
Theorem override_line_parsed (text key value : string) :
  colon_free text = true -> key ∈ recognized_keys -> plain_value value ->
  parse_prompt_overrides (text +:+ nl +:+ override_text key value)
  = (Str.strip text,
     match stored key value with
     | Some v => {[key := v]}
     | None => ∅
     end).
Proof.
  intros Hfree Hkey Hvalue. unfold parse_prompt_overrides.
  rewrite (override_line_matches text key value Hfree Hkey Hvalue).
  cbn [fold_left]. unfold parse_step.
  destruct (recognized_key_shape key Hkey) as (-> & _ & _).
  rewrite (bool_decide_eq_true_2 _ Hkey).
  rewrite (override_line_replace text key value Hfree Hkey).
  unfold nl. rewrite (strip_space_end text (ascii_of_N 10) eq_refl).
  unfold stored. destruct (bool_decide (key ∈ numeric_keys)); [|reflexivity].
  now destruct (Str.int value).
Qed.

Lemma override_line_parsed_witness :
  colon_free "a cat on a mat" = true
  /\ "steps" ∈ recognized_keys
  /\ plain_value "30"
  /\ parse_prompt_overrides ("a cat on a mat" +:+ nl +:+ "steps: 30")
     = ("a cat on a mat", {["steps" := VInt 30]}).
Proof.
  assert (Hfree : colon_free "a cat on a mat" = true) by reflexivity.
  assert (Hkey : "steps" ∈ recognized_keys)
    by (apply (bool_decide_unpack _); vm_compute; exact I).
  assert (Hvalue : plain_value "30")
    by (split; [reflexivity | now eexists _, _]).
  split; [exact Hfree|]. split; [exact Hkey|]. split; [exact Hvalue|].
  exact (override_line_parsed "a cat on a mat" "steps" "30" Hfree Hkey Hvalue).
Defined.

(** * More about the runs of the action *)

Section MoreRuns.

(** The loop emits the messages of the entries it reaches: those before
    the first entry that is not a string. *)
Lemma for_each_trace (entries : list pyval) (s : state) :
  exists strs res,
    for_each entries emit_image s
    = (res, {| emitted := emitted s ++ (image_message <$> strs);
               posted := posted s |}).
Proof.
  revert s. induction entries as [|v entries IH]; intros s.
  - exists [], (inr tt). cbn. rewrite app_nil_r. now destruct s.
  - cbn [for_each]. run.
    destruct v as [| | | |str| |]; cbn [emit_image];
      try (eexists [], _; rewrite app_nil_r; destruct s; reflexivity).
    run. cbv beta iota.
    destruct (IH {| emitted := emitted s ++ [Message (image_markdown str) "assistant"];
                    posted := posted s |}) as (strs & res & ->).
    exists (str :: strs), res. cbn [emitted posted fmap list_fmap].
    now rewrite <- app_assoc.
Qed.

Lemma emit_images_trace (data : pyval) (s : state) :
  exists strs res,
    emit_images data s
    = (res, {| emitted := emitted s ++ (image_message <$> strs);
               posted := posted s |}).
Proof.
  assert (Hnone : forall res : result unit, exists strs res',
             (res, s) = (res', {| emitted := emitted s ++ (image_message <$> strs);
                                  posted := posted s |})).
  { intros res. exists [], res. cbn. rewrite app_nil_r. now destruct s. }
  unfold emit_images. run.
  destruct (Py.contains "images" data) as [e|[|]]; [apply Hnone | | apply Hnone].
  destruct (Py.getitem data "images") as [e|images]; [apply Hnone|].
  destruct (Py.truthy images); [|apply Hnone].
  destruct (Py.iter images) as [e|entries]; [apply Hnone|].
  apply for_each_trace.
Qed.

Variable valves : Valves.
Variable body : list (string * pyval).
Variable w : world.

(** The requests of a run: none, or the one built from the prompt. *)
Lemma action_posted_cases (em : option emitter) :
  posted (action valves body em w initial).2 = []
  \/ exists prompt,
       last_message_content body = inr (PStr prompt)
       /\ posted (action valves body em w initial).2
          = [build_request valves w (parse_prompt_overrides prompt).1
               (parse_prompt_overrides prompt).2].
Proof.
  unfold action.
  destruct (negb (bool_decide (is_Some em)) || String.eqb (VENICE_API_KEY valves) "");
    [now left|].
  unfold action_body, try_except. run.
  destruct (last_message_content body) as [e|[| | | |prompt| |]] eqn:Hc;
    try (now left).
  right. exists prompt. split; [reflexivity|]. cbn [Py.expect_str].
  destruct (parse_prompt_overrides prompt) as [cleaned overrides]. cbn [fst snd].
  destruct (http_post w _) as [e|r]; [reflexivity|].
  destruct (raise_for_status r) as [e|[]]; [reflexivity|].
  destruct (resp_json r) as [e|data]; [reflexivity|].
  match goal with
  | |- context [emit_images data ?s] =>
      destruct (emit_images_trace data s) as (strs & [e|[]] & ->)
  end; reflexivity.
Qed.

Hypothesis has_key : VENICE_API_KEY valves <> EmptyString.


End MoreRuns.



(** X8. The action posts at most one request, and none when the
    content of the last message cannot be read as a string. *)
Theorem at_most_one_request (valves : Valves) (body : list (string * pyval))
    (em : option emitter) (w : world) :
  length (posted (action valves body em w initial).2) <= 1
  /\ ((forall prompt, last_message_content body <> inr (PStr prompt)) ->
      posted (action valves body em w initial).2 = []).
Proof.
  destruct (action_posted_cases valves body w em) as [-> | (prompt & Hc & ->)].
  - split; [cbn; lia | reflexivity].
  - split; [cbn; lia|]. intros H. now destruct (H prompt).
Qed.

Section DataRuns.

Lemma overrides_get_numeric (prompt key : string) (d : Z) :
  key ∈ numeric_keys ->
  exists z, overrides_get (parse_prompt_overrides prompt).2 key (VInt d) = VInt z.
Proof.
  intros Hnum. pose proof (numeric_recognized key Hnum) as Hrec.
  unfold overrides_get, parse_prompt_overrides.
  rewrite (fold_parse_lookup key _ Hrec). cbn [snd]. rewrite lookup_empty.
  destruct (last (accepted key (matches prompt))) as [v|] eqn:Hlast;
    [|now exists d].
  apply last_Some_elem_of in Hlast.
  destruct (accepted_origin _ _ _ Hlast) as (k & value & _ & _ & Hst).
  unfold stored in Hst. rewrite (bool_decide_eq_true_2 _ Hnum) in Hst.
  destruct (Str.int value) as [z|]; [|discriminate Hst].
  injection Hst as <-. now exists z.
Qed.

Lemma overrides_get_negative_prompt (prompt d : string) :
  exists t,
    overrides_get (parse_prompt_overrides prompt).2 "negative_prompt" (VStr d)
    = VStr t.
Proof.
  assert (Hrec : "negative_prompt" ∈ recognized_keys)
    by (apply (bool_decide_unpack _); vm_compute; exact I).
  unfold overrides_get, parse_prompt_overrides.
  rewrite (fold_parse_lookup _ _ Hrec). cbn [snd]. rewrite lookup_empty.
  destruct (last (accepted "negative_prompt" (matches prompt))) as [v|] eqn:Hlast;
    [|now exists d].
  apply last_Some_elem_of in Hlast.
  destruct (accepted_origin _ _ _ Hlast) as (k & value & _ & _ & Hst).
  vm_compute in Hst. injection Hst as <-. now exists value.
Qed.

Lemma for_each_bad_entry (good : list string) (bad : pyval) (rest : list pyval)
    (s : state) :
  (forall str, bad <> PStr str) ->
  for_each ((PStr <$> good) ++ bad :: rest) emit_image s
  = (inl (Py.no_attribute bad "startswith"),
     {| emitted := emitted s ++ (image_message <$> good); posted := posted s |}).
Proof.
  intros Hbad. revert s. induction good as [|x good IH]; intros s.
  - cbn [fmap list_fmap app for_each]. run.
    destruct bad as [| | | |str| |]; try (now destruct (Hbad str));
      cbn [emit_image]; rewrite app_nil_r; now destruct s.
  - cbn [fmap list_fmap app for_each emit_image]. run. cbv beta iota.
    rewrite IH. cbn [emitted posted]. now rewrite <- app_assoc.
Qed.

Variable valves : Valves.
Variable body : list (string * pyval).
Variable w : world.
Hypothesis has_key : VENICE_API_KEY valves <> EmptyString.
Variable data : pyval.
Hypothesis has_data : response_data valves body w = inr data.

(** The run, once the response is decoded. *)
Lemma action_with_data :
  exists s0,
    emitted s0 = [Status "Generating image..." false]
    /\ action valves body (Some HostEmitter) w initial
       = try_except (emit_images data ;;; emit done_status)
           (fun e => emit (error_status e)) s0.
Proof.
  rewrite (action_run valves body w has_key).
  destruct (action_body_data valves body w generating) as (s0 & Hs0 & Hrun).
  rewrite has_data in Hrun. exists s0. split; [exact Hs0|].
  unfold try_except. now rewrite Hrun.
Qed.

Lemma run_of_emit_images (res : result unit) (evs : list event) :
  (forall s, emit_images data s
             = (res, {| emitted := emitted s ++ evs; posted := posted s |})) ->
  emitted (action valves body (Some HostEmitter) w initial).2
  = [Status "Generating image..." false] ++ evs
    ++ [match res with inr _ => done_status | inl e => error_status e end].
Proof.
  intros Himg. destruct action_with_data as (s0 & Hs0 & ->).
  unfold try_except. run. rewrite Himg.
  destruct res as [e|[]]; cbn [emitted snd]; now rewrite Hs0, <- app_assoc.
Qed.

End DataRuns.

(** X9. In every request the action posts, the URL, the headers, the
    time-out, the model and the two flags come from the configuration
    alone; width, height, steps, cfg_scale and seed are integers and the
    negative prompt is a string, whatever the prompt holds; and the
    prompt field is the cleaned prompt of the last message. *)
Theorem posted_request_fields (valves : Valves) (body : list (string * pyval))
    (em : option emitter) (w : world) (rq : request) :
  rq ∈ posted (action valves body em w initial).2 ->
  (rq_url rq = VENICE_API_BASE_URL valves +:+ "/image/generate"
   /\ rq_headers rq = [("Authorization", "Bearer " +:+ VENICE_API_KEY valves);
                       ("Content-Type", "application/json")]
   /\ rq_timeout rq = TIMEOUT valves
   /\ pl_model (rq_json rq) = MODEL_ID valves
   /\ pl_hide_watermark (rq_json rq) = HIDE_WATERMARK valves
   /\ pl_return_binary (rq_json rq) = RETURN_BINARY valves)
  /\ (is_int (pl_width (rq_json rq)) /\ is_int (pl_height (rq_json rq))
      /\ is_int (pl_steps (rq_json rq)) /\ is_int (pl_cfg_scale (rq_json rq))
      /\ is_int (pl_seed (rq_json rq))
      /\ exists t, pl_negative_prompt (rq_json rq) = VStr t)
  /\ exists prompt,
       last_message_content body = inr (PStr prompt)
       /\ pl_prompt (rq_json rq) = (parse_prompt_overrides prompt).1.
Proof.
  intros Hin.
  destruct (action_posted_cases valves body w em) as [E | (prompt & Hc & E)];
    rewrite E in Hin; [now apply elem_of_nil in Hin|].
  apply list_elem_of_singleton in Hin. subst rq.
  cbn [build_request build_payload rq_url rq_headers rq_timeout rq_json
       pl_model pl_hide_watermark pl_return_binary pl_width pl_height pl_steps
       pl_cfg_scale pl_seed pl_negative_prompt pl_prompt].
  split; [now repeat split|]. split; [|now exists prompt].
  assert (Hnum : forall key, key ∈ numeric_keys ->
             forall d, is_int (overrides_get (parse_prompt_overrides prompt).2
                                 key (VInt d))).
  { intros key Hkey d. now apply overrides_get_numeric. }
  repeat split;
    try (apply Hnum, (bool_decide_unpack _); vm_compute; exact I).
  apply overrides_get_negative_prompt.
Qed.

Lemma posted_request_fields_witness :
  let w := world_with 7 (inl read_timeout) in
  let body := chat ("a cat" +:+ nl +:+ "steps: 500") in
  let rq := build_request keyed_valves w "a cat" {["steps" := VInt 500]} in
  rq ∈ posted (action keyed_valves body (Some HostEmitter) w initial).2
  /\ pl_steps (rq_json rq) = VInt 500
  /\ is_int (pl_seed (rq_json rq)).
Proof.
  intros w body rq.
  assert (E : posted (action keyed_valves body (Some HostEmitter) w initial).2
              = [rq]) by (vm_compute; reflexivity).
  assert (H : rq ∈ posted (action keyed_valves body (Some HostEmitter) w initial).2)
    by (rewrite E; apply list_elem_of_singleton; reflexivity).
  split; [exact H|]. split; [reflexivity|].
  destruct (posted_request_fields keyed_valves body (Some HostEmitter) w rq H)
    as (_ & (_ & _ & _ & _ & Hseed & _) & _).
  exact Hseed.
Defined.

(** X10. When the decoded response does not hold [images], or holds
    it with a value that is false in a condition (an empty list, null,
    zero, an empty string), the run emits the first status and the final
    status, and no message. *)
Theorem no_images_no_message (valves : Valves) (body : list (string * pyval))
    (w : world) (data : pyval) :
  VENICE_API_KEY valves <> "" ->
  response_data valves body w = inr data ->
  (Py.contains "images" data = inr false
   \/ exists v, Py.contains "images" data = inr true
                /\ Py.getitem data "images" = inr v /\ Py.truthy v = false) ->
  emitted (action valves body (Some HostEmitter) w initial).2
  = [Status "Generating image..." false; Status "Image generated!" true].
Proof.
  intros Hkey Hdata Hnone.
  apply (run_of_emit_images valves body w Hkey data Hdata (inr tt) []).
  intros s. unfold emit_images. run.
  destruct Hnone as [-> | (v & -> & -> & ->)];
    rewrite app_nil_r; now destruct s.
Qed.

Lemma no_images_no_message_witness :
  let data := PDict [("images", PNone); ("id", PStr "r1")] in
  let w := world_with 7 (inr (ok_response data)) in
  VENICE_API_KEY keyed_valves <> ""
  /\ response_data keyed_valves (chat "a cat") w = inr data
  /\ Py.truthy PNone = false
  /\ emitted (action keyed_valves (chat "a cat") (Some HostEmitter) w initial).2
     = [Status "Generating image..." false; Status "Image generated!" true].
Proof.
  intros data w.
  assert (Hkey : VENICE_API_KEY keyed_valves <> "") by discriminate.
  assert (Hdata : response_data keyed_valves (chat "a cat") w = inr data)
    by (vm_compute; reflexivity).
  split; [exact Hkey|]. split; [exact Hdata|]. split; [reflexivity|].
  apply (no_images_no_message keyed_valves (chat "a cat") w data Hkey Hdata).
  right. exists PNone. now repeat split.
Defined.

(** X11. The loop stops at the first entry that is not a string: the
    messages of the entries before it stay emitted, the error status
    names the missing [startswith], and neither the entries after it nor
    the final status are emitted. *)
Theorem bad_entry_stops_loop (valves : Valves) (body : list (string * pyval))
    (w : world) (d : list (string * pyval)) (good : list string) (bad : pyval)
    (rest : list pyval) :
  VENICE_API_KEY valves <> "" ->
  response_data valves body w = inr (PDict d) ->
  Py.lookup "images" d = Some (PList ((PStr <$> good) ++ bad :: rest)) ->
  (forall str, bad <> PStr str) ->
  emitted (action valves body (Some HostEmitter) w initial).2
  = [Status "Generating image..." false]
    ++ (image_message <$> good)
    ++ [Status ("Error: '" +:+ Py.type_name bad
                +:+ "' object has no attribute 'startswith'") true].
Proof.
  intros Hkey Hdata Hd Hbad.
  apply (run_of_emit_images valves body w Hkey (PDict d) Hdata
           (inl (Py.no_attribute bad "startswith")) (image_message <$> good)).
  intros s. unfold emit_images. run. cbn [Py.contains Py.getitem]. rewrite Hd.
  rewrite bool_decide_eq_true_2 by (now eexists).
  assert (Htruthy : Py.truthy (PList ((PStr <$> good) ++ bad :: rest)) = true)
    by (cbn [Py.truthy]; now destruct good).
  rewrite Htruthy. cbn [Py.iter]. now apply for_each_bad_entry.
Qed.

Lemma bad_entry_stops_loop_witness :
  let d := [("images", PList [PStr "AAAA"; PNone; PStr "BBBB"])] in
  let w := world_with 7 (inr (ok_response (PDict d))) in
  VENICE_API_KEY keyed_valves <> ""
  /\ response_data keyed_valves (chat "a cat") w = inr (PDict d)
  /\ Py.lookup "images" d = Some (PList ((PStr <$> ["AAAA"]) ++ PNone :: [PStr "BBBB"]))
  /\ (forall str, PNone <> PStr str)
  /\ emitted (action keyed_valves (chat "a cat") (Some HostEmitter) w initial).2
     = [Status "Generating image..." false;
        Message "![image](data:image/png;base64,AAAA)" "assistant";
        Status "Error: 'NoneType' object has no attribute 'startswith'" true].
Proof.
  intros d w.
  assert (Hkey : VENICE_API_KEY keyed_valves <> "") by discriminate.
  assert (Hdata : response_data keyed_valves (chat "a cat") w = inr (PDict d))
    by (vm_compute; reflexivity).
  assert (Hd : Py.lookup "images" d
               = Some (PList ((PStr <$> ["AAAA"]) ++ PNone :: [PStr "BBBB"])))
    by reflexivity.
  assert (Hbad : forall str, PNone <> PStr str) by discriminate.
  split; [exact Hkey|]. split; [exact Hdata|]. split; [exact Hd|].
  split; [exact Hbad|].
  exact (bad_entry_stops_loop keyed_valves (chat "a cat") w d ["AAAA"] PNone
           [PStr "BBBB"] Hkey Hdata Hd Hbad).
Defined.

(** X12. The loop runs over whatever [images] holds: when iterating the
    value gives strings (a list of strings, but also a string, taken
    character by character, or a dict, taken key by key), each of them
    gets its message, in order, before the final status. *)
Theorem iterable_images_become_messages (valves : Valves)
    (body : list (string * pyval)) (w : world) (d : list (string * pyval))
    (v : pyval) (strs : list string) :
  VENICE_API_KEY valves <> "" ->
  response_data valves body w = inr (PDict d) ->
  Py.lookup "images" d = Some v ->
  Py.truthy v = true ->
  Py.iter v = inr (PStr <$> strs) ->
  emitted (action valves body (Some HostEmitter) w initial).2
  = [Status "Generating image..." false]
    ++ (image_message <$> strs)
    ++ [Status "Image generated!" true].
Proof.
  intros Hkey Hdata Hd Htruthy Hiter.
  apply (run_of_emit_images valves body w Hkey (PDict d) Hdata (inr tt)
           (image_message <$> strs)).
  intros s. unfold emit_images. run. cbn [Py.contains Py.getitem]. rewrite Hd.
  rewrite bool_decide_eq_true_2 by (now eexists).
  rewrite Htruthy, Hiter. apply for_each_strs.
Qed.

Lemma iterable_images_become_messages_witness :
  let d := [("images", PStr "QUJD")] in
  let w := world_with 7 (inr (ok_response (PDict d))) in
  VENICE_API_KEY keyed_valves <> ""
  /\ response_data keyed_valves (chat "a cat") w = inr (PDict d)
  /\ Py.iter (PStr "QUJD") = inr (PStr <$> ["Q"; "U"; "J"; "D"])
  /\ emitted (action keyed_valves (chat "a cat") (Some HostEmitter) w initial).2
     = [Status "Generating image..." false;
        Message "![image](data:image/png;base64,Q)" "assistant";
        Message "![image](data:image/png;base64,U)" "assistant";
        Message "![image](data:image/png;base64,J)" "assistant";
        Message "![image](data:image/png;base64,D)" "assistant";
        Status "Image generated!" true].
Proof.
  intros d w.
  assert (Hkey : VENICE_API_KEY keyed_valves <> "") by discriminate.
  assert (Hdata : response_data keyed_valves (chat "a cat") w = inr (PDict d))
    by (vm_compute; reflexivity).
  assert (Hiter : Py.iter (PStr "QUJD") = inr (PStr <$> ["Q"; "U"; "J"; "D"]))
    by reflexivity.
  split; [exact Hkey|]. split; [exact Hdata|]. split; [exact Hiter|].
  exact (iterable_images_become_messages keyed_valves (chat "a cat") w d
           (PStr "QUJD") ["Q"; "U"; "J"; "D"] Hkey Hdata eq_refl eq_refl Hiter).
Defined.

Lemma chars_of_app (a b : string) :
  chars_of (a +:+ b) = chars_of a ++ chars_of b.
Proof.
  induction a as [|c a IH]; [reflexivity|].
  rewrite StrFacts.app_cons. cbn [chars_of app]. now rewrite IH.
Qed.

Lemma chars_of_inj (a b : string) : chars_of a = chars_of b -> a = b.
Proof.
  revert b. induction a as [|c a IH]; intros [|c' b] H; try discriminate H;
    [reflexivity|].
  cbn [chars_of] in H. injection H as -> H. now rewrite (IH b H).
Qed.

Lemma str_app_inv_tail (a b c : string) : a +:+ c = b +:+ c -> a = b.
Proof.
  intros H. apply chars_of_inj. apply (f_equal chars_of) in H.
  rewrite !chars_of_app in H. now apply app_inv_tail in H.
Qed.

(** X13. Two entries with the same markdown are the same entry: the
    entry can be read back from the message. *)
Theorem image_markdown_injective (a b : string) :
  image_markdown a = image_markdown b -> a = b.
Proof.
  unfold image_markdown, _process_base64_image, process_base64_body.
  destruct (Str.startswith "http" a) eqn:Ha, (Str.startswith "http" b) eqn:Hb;
    intros H; apply (String.app_inj "![image](") in H;
    apply str_app_inv_tail in H.
  - exact H.
  - subst a. discriminate Ha.
  - subst b. discriminate Hb.
  - now apply (String.app_inj "data:image/png;base64,") in H.
Qed.

Lemma image_markdown_injective_witness :
  image_markdown "AAAA" = image_markdown "AAAA" /\ "AAAA" = "AAAA".
Proof.
  assert (H : image_markdown "AAAA" = image_markdown "AAAA") by reflexivity.
  split; [exact H|]. exact (image_markdown_injective "AAAA" "AAAA" H).
Defined.

(** X14. A last message made of a text without colon and a line
    [key: value] as in X6 makes the action post one request, whose
    prompt is the trimmed text and whose fields are built from the one
    override; no bound of the configuration is applied to the number
    given. *)
Theorem override_line_request (valves : Valves) (body : list (string * pyval))
    (w : world) (text key value : string) :
  VENICE_API_KEY valves <> "" ->
  ends_with_message body (text +:+ nl +:+ override_text key value) ->
  colon_free text = true -> key ∈ recognized_keys -> plain_value value ->
  posted (action valves body (Some HostEmitter) w initial).2
  = [build_request valves w (Str.strip text)
       match stored key value with
       | Some v => {[key := v]}
       | None => ∅
       end].
Proof.
  intros Hkey Hbody Hfree Hrec Hvalue.
  rewrite (action_posted valves body w Hkey _ Hbody).
  unfold parse_prompt_overrides.
  rewrite (override_line_matches text key value Hfree Hrec Hvalue).
  cbn [fold_left]. unfold parse_step.
  destruct (recognized_key_shape key Hrec) as (-> & _ & _).
  rewrite (bool_decide_eq_true_2 _ Hrec).
  rewrite (override_line_replace text key value Hfree Hrec).
  unfold nl. rewrite (strip_space_end text (ascii_of_N 10) eq_refl).
  unfold stored. destruct (bool_decide (key ∈ numeric_keys)); [|reflexivity].
  now destruct (Str.int value).
Qed.

Lemma override_line_request_witness :
  let w := world_with 7 (inl read_timeout) in
  let body := chat ("a red fox" +:+ nl +:+ "steps: 500") in
  VENICE_API_KEY keyed_valves <> ""
  /\ ends_with_message body ("a red fox" +:+ nl +:+ override_text "steps" "500")
  /\ colon_free "a red fox" = true
  /\ "steps" ∈ recognized_keys
  /\ plain_value "500"
  /\ STEPS keyed_valves = 80%Z
  /\ exists rq,
       posted (action keyed_valves body (Some HostEmitter) w initial).2 = [rq]
       /\ pl_prompt (rq_json rq) = "a red fox"
       /\ pl_steps (rq_json rq) = VInt 500.
Proof.
  intros w body.
  assert (Hkey : VENICE_API_KEY keyed_valves <> "") by discriminate.
  assert (Hbody : ends_with_message body
                    ("a red fox" +:+ nl +:+ override_text "steps" "500"))
    by reflexivity.
  assert (Hfree : colon_free "a red fox" = true) by reflexivity.
  assert (Hrec : "steps" ∈ recognized_keys)
    by (apply (bool_decide_unpack _); vm_compute; exact I).
  assert (Hvalue : plain_value "500")
    by (split; [reflexivity | now eexists _, _]).
  split; [exact Hkey|]. split; [exact Hbody|]. split; [exact Hfree|].
  split; [exact Hrec|]. split; [exact Hvalue|]. split; [reflexivity|].
  eexists. split.
  - exact (override_line_request keyed_valves body w "a red fox" "steps" "500"
             Hkey Hbody Hfree Hrec Hvalue).
  - split; vm_compute; reflexivity.
Defined.

(** * The keep-alive generator *)

Section KeepAlive.

Lemma keep_alive_run_finished (flags : list bool) :
  keep_alive_run flags Finished = (replicate (length flags) None, 0).
Proof.
  induction flags as [|b flags IH]; [reflexivity|].
  cbn [keep_alive_run keep_alive_next]. now rewrite IH.
Qed.

Lemma keep_alive_run_resumed (n : nat) (later : list bool) :
  keep_alive_run (replicate n true ++ false :: later) AtYield
  = (replicate n (Some " ") ++ replicate (S (length later)) None, S n).
Proof.
  induction n as [|n IH].
  - cbn [replicate app keep_alive_run keep_alive_next].
    now rewrite keep_alive_run_finished.
  - cbn [replicate app keep_alive_run keep_alive_next]. now rewrite IH.
Qed.

Lemma keep_alive_run_active (n : nat) :
  keep_alive_run (replicate n true) AtYield = (replicate n (Some " "), n).
Proof.
  induction n as [|n IH]; [reflexivity|].
  cbn [replicate keep_alive_run keep_alive_next]. now rewrite IH.
Qed.

End KeepAlive.

(** X15. The generator yields a single space at each call for as long
    as the flag is set when the loop condition is tested, and sleeps one
    second between two values. Once it has found the flag cleared it is
    finished for good: every later call ends at once, whatever the flag
    is by then, and with no further sleep. *)
Theorem keep_alive_generator_runs (n : nat) (later : list bool) :
  keep_alive_run (replicate (S n) true) NotStarted
  = (replicate (S n) (Some " "), n)
  /\ keep_alive_run (replicate n true ++ false :: later) NotStarted
     = (replicate n (Some " ") ++ replicate (S (length later)) None, n).
Proof.
  split.
  - cbn [replicate keep_alive_run keep_alive_next].
    now rewrite keep_alive_run_active.
  - destruct n as [|m]; cbn [replicate app keep_alive_run keep_alive_next].
    + now rewrite keep_alive_run_finished.
    + now rewrite keep_alive_run_resumed.
Qed.

(** X16. An instance as [__init__] leaves it is inert: with the empty
    default key the action returns at once for every body, emitter and
    world, and with the flag unset the keep-alive generator yields
    nothing, however often it is called. *)
Theorem fresh_instance_is_inert (body : list (string * pyval))
    (em : option emitter) (w : world) (s : state) (calls : nat) :
  action (self_valves __init__) body em w s = (inr tt, s)
  /\ keep_alive_run (replicate calls (self_keep_alive_active __init__)) NotStarted
     = (replicate calls None, 0).
Proof.
  split; [|destruct calls as [|calls]; [reflexivity|]].
  - unfold action. cbn [__init__ self_valves default_valves VENICE_API_KEY].
    now rewrite orb_true_r.
  - cbn [__init__ self_keep_alive_active replicate keep_alive_run keep_alive_next].
    rewrite <- (length_replicate calls false) at 2.
    now rewrite keep_alive_run_finished, length_replicate.
Qed.
